(** * bilibili-text: subtitle parsing, playback sync, subtitle cache and
    speech-recognition fallback

  A shallow embedding of the TypeScript sources
  - [services/subtitleParser.ts]   ([parseSubtitles], [findActiveSubtitle]),
  - [services/indexedDBStorage.ts] ([IndexedDBService]),
  - [services/speechRecognition.ts] ([SpeechRecognitionService]),
  - [app/api/bilibili/speech/transcribe/route.ts] (the replies of [POST]),
  - [app/video/[videoId]/page.tsx] (the transcription trigger of [VideoPage]),
  followed by the properties proved about them.

  Conventions.  A JavaScript [number] that holds a time in seconds is a
  binary64 float ([PrimFloat.float]); a millisecond timestamp returned by
  [Date.now()] is an integer in [Z]; a JavaScript string is the list of its
  UTF-16 code units; [undefined]/[null] results are [None]. *)

From Stdlib Require Import ZArith NArith List Bool Lia.
From Stdlib Require Import Ascii String.
From Stdlib Require Import Floats.
From Stdlib Require Import Sorting.Sorted.
From Stdlib Require Import DecimalNat.
From stdpp Require Import gmap strings list fin_maps.

Local Open Scope Z_scope.

(* ===================================================================== *)
(** * JavaScript values *)
(* ===================================================================== *)

Module Js.

(** A string is the sequence of its UTF-16 code units. *)
Abbreviation jsstring := (list N).

(** An ASCII literal as a JavaScript string. *)
Definition js (s : string) : jsstring :=
  List.map N_of_ascii (list_ascii_of_string s).

(** The values a property of a parsed JSON record can hold. *)
Inductive JsValue : Type :=
| JUndefined
| JNull
| JBoolean (b : bool)
| JNumber (x : float)
| JString (s : jsstring)
| JObject.

Inductive JsType : Type :=
| TUndefined | TObject | TBoolean | TNumber | TString.

Definition typeof (v : JsValue) : JsType :=
  match v with
  | JUndefined => TUndefined
  | JNull => TObject
  | JBoolean _ => TBoolean
  | JNumber _ => TNumber
  | JString _ => TString
  | JObject => TObject
  end.

Definition JsType_eqb (a b : JsType) : bool :=
  match a, b with
  | TUndefined, TUndefined | TObject, TObject | TBoolean, TBoolean
  | TNumber, TNumber | TString, TString => true
  | _, _ => false
  end.

(** ECMAScript [WhiteSpace] and [LineTerminator] code units, the characters
    [String.prototype.trim] strips. *)
Definition isTrimmable (c : N) : bool :=
  ((c =? 9) || (c =? 10) || (c =? 11) || (c =? 12) || (c =? 13)
   || (c =? 32) || (c =? 160) || (c =? 5760)
   || ((8192 <=? c) && (c <=? 8202))
   || (c =? 8232) || (c =? 8233) || (c =? 8239) || (c =? 8287)
   || (c =? 12288) || (c =? 65279))%N.

Fixpoint trimStart (s : jsstring) : jsstring :=
  match s with
  | [] => []
  | c :: r => if isTrimmable c then trimStart r else s
  end.

Definition trimEnd (s : jsstring) : jsstring := rev (trimStart (rev s)).

Definition trim (s : jsstring) : jsstring := trimEnd (trimStart s).

(** Decimal digits of a non-negative integer, as a template literal
    [`${index}`] prints an array index. *)
Fixpoint digits (d : Decimal.uint) : jsstring :=
  match d with
  | Decimal.Nil => []
  | Decimal.D0 r => 48%N :: digits r
  | Decimal.D1 r => 49%N :: digits r
  | Decimal.D2 r => 50%N :: digits r
  | Decimal.D3 r => 51%N :: digits r
  | Decimal.D4 r => 52%N :: digits r
  | Decimal.D5 r => 53%N :: digits r
  | Decimal.D6 r => 54%N :: digits r
  | Decimal.D7 r => 55%N :: digits r
  | Decimal.D8 r => 56%N :: digits r
  | Decimal.D9 r => 57%N :: digits r
  end.

Definition index_toString (n : nat) : jsstring := digits (Nat.to_uint n).

(** [a || b] on strings that may be missing: the empty string and
    [undefined] are falsy. *)
Definition or_else (a : option jsstring) (b : jsstring) : jsstring :=
  match a with
  | Some (c :: r) => c :: r
  | _ => b
  end.

End Js.
Import Js.

(* ===================================================================== *)
(** * services/subtitleParser.ts *)
(* ===================================================================== *)

Module SubtitleParser.

(** [SubtitleSegment], with the fields the parser and the transcription
    route write. *)
Record SubtitleSegment : Type := {
  id : jsstring;
  videoId : jsstring;
  startTime : float;
  endTime : float;
  text : jsstring;
  index : nat;
  language : option jsstring
}.

(** One element of the raw array: an object read through its properties
    [from], [to] and [content]; a missing property reads [JUndefined]. *)
Record BilibiliSubtitleItem : Type := {
  item_from : JsValue;
  item_to : JsValue;
  item_content : JsValue
}.

(** The argument [raw]: an array of such objects, or anything else. *)
Inductive RawInput : Type :=
| RawArray (items : list BilibiliSubtitleItem)
| RawOther (v : JsValue).

(** [x < y] and [x <= y] between two values already known to be numbers
    are the IEEE comparisons; they are only evaluated behind the [typeof]
    guard, and answer [false] elsewhere. *)
Definition js_lt (a b : JsValue) : bool :=
  match a, b with
  | JNumber x, JNumber y => (x <? y)%float
  | _, _ => false
  end.

Definition js_le (a b : JsValue) : bool :=
  match a, b with
  | JNumber x, JNumber y => (x <=? y)%float
  | _, _ => false
  end.

Definition content_trim_length_is_zero (v : JsValue) : bool :=
  match v with
  | JString s => match trim s with [] => true | _ => false end
  | _ => false
  end.

(** The callback of [raw.filter]. *)
Definition keep (item : BilibiliSubtitleItem) : bool :=
  if negb (JsType_eqb (typeof (item_from item)) TNumber)
     || negb (JsType_eqb (typeof (item_to item)) TNumber)
     || negb (JsType_eqb (typeof (item_content item)) TString)
  then false
  else if js_lt (item_from item) (JNumber 0%float)
          || js_le (item_to item) (item_from item)
  then false
  else if content_trim_length_is_zero (item_content item)
  then false
  else true.

(** Reading a property whose type the filter has established. *)
Definition number_of (v : JsValue) : float :=
  match v with JNumber x => x | _ => nan end.

Definition string_of (v : JsValue) : jsstring :=
  match v with JString s => s | _ => [] end.

(** The callback of [.map((item, index) => ...)]. *)
Definition toSegment (vid : jsstring) (i : nat) (item : BilibiliSubtitleItem)
  : SubtitleSegment :=
  {| id := js "subtitle-" ++ index_toString i;
     videoId := vid;
     startTime := number_of (item_from item);
     endTime := number_of (item_to item);
     text := trim (string_of (item_content item));
     index := i;
     language := None |}.

Definition parseSubtitles (raw : RawInput) (vid : jsstring)
  : list SubtitleSegment :=
  match raw with
  | RawOther _ => []
  | RawArray items => imap (toSegment vid) (List.filter keep items)
  end.

(** The predicate of [subtitles.find]. *)
Definition active (currentTime : float) (s : SubtitleSegment) : bool :=
  (startTime s <=? currentTime)%float && (currentTime <? endTime s)%float.

(** [subtitles.find(...) || null]: a segment is an object, hence truthy. *)
Definition findActiveSubtitle (currentTime : float)
    (subtitles : list SubtitleSegment) : option SubtitleSegment :=
  List.find (active currentTime) subtitles.

(** The input of the parser-filtering scenario. *)
Definition scenario_raw : RawInput :=
  RawArray
    [ {| item_from := JNumber 0; item_to := JNumber 2;
         item_content := JString (js "a") |};
      {| item_from := JNumber 5; item_to := JNumber 3;
         item_content := JString (js "b") |};
      {| item_from := JNumber 6; item_to := JNumber 8;
         item_content := JString (js "  ") |} ].

End SubtitleParser.


(* ===================================================================== *)
(** * Effects: exceptions, the clock, IndexedDB and the network *)
(* ===================================================================== *)

Module Runtime.

(** A thrown [Error] object with the ad hoc fields the service attaches. *)
Record JsError : Type := {
  message : jsstring;
  code : option jsstring;
  status : option Z;
  retryable : option bool
}.

(** [new Error(msg)]. *)
Definition Error (msg : jsstring) : JsError :=
  {| message := msg; code := None; status := None; retryable := None |}.

(** The rejection of a failed IndexedDB request. *)
Definition DOMException : JsError := Error (js "DOMException").

(** The rejection of [response.json()] on a body that is not JSON. *)
Definition SyntaxError : JsError := Error (js "SyntaxError").

Inductive Completion (A : Type) : Type :=
| Normal (a : A)
| Throw (e : JsError).
Arguments Normal {A} a.
Arguments Throw {A} e.

(** types/speechRecognition.ts *)
Inductive Source : Type := native | speech_recognition.

Definition Source_eqb (a b : Source) : bool :=
  match a, b with
  | native, native | speech_recognition, speech_recognition => true
  | _, _ => false
  end.

(** [SubtitleCache]; [subtitles] is [None] when the property holds
    [undefined]. *)
Record SubtitleCache : Type := {
  videoId : jsstring;
  subtitles : option (list SubtitleParser.SubtitleSegment);
  cachedAt : Z;
  expiresAt : Z;
  source : Source;
  language : jsstring
}.

(** The body of [POST /api/bilibili/speech/transcribe]. *)
Record TranscribeRequest : Type := {
  req_videoId : jsstring;
  req_audioUrl : jsstring;
  req_language : jsstring
}.

(** A JSON reply body, read through the properties the client uses
    ([None]: the property is absent). *)
Record JsonBody : Type := {
  body_error : option jsstring;
  body_message : option jsstring;
  body_details : option jsstring;
  body_subtitles : option (list SubtitleParser.SubtitleSegment)
}.

Inductive Body : Type :=
| BodyJson (data : JsonBody)
| BodyNotJson.

Record Response : Type := {
  resp_status : Z;
  resp_body : Body
}.

(** [response.ok]. *)
Definition ok (r : Response) : bool :=
  (200 <=? resp_status r) && (resp_status r <=? 299).

(** How a [fetch] settles: rejected (no HTTP reply) or a response. *)
Inductive FetchOutcome : Type :=
| FetchRejected (e : JsError)
| FetchResponse (r : Response).

(** The browser and the two service singletons.
    - [clock]: the value of the n-th evaluation of [Date.now()];
    - [idb_fault]: whether the n-th IndexedDB request is rejected;
    - [cache_store]: the object store ['subtitle-cache'], keyed by
      [videoId];
    - [db], [initPromise]: the private fields of [IndexedDBService]
      ([db]: the handle is set; [initPromise]: [None] is [null],
      [Some true] a fulfilled and [Some false] a rejected promise);
    - [fetch_log]: the transcription requests sent so far, oldest first;
    - [fetch_reply]: how the n-th of them settles. *)
Record World : Type := {
  indexedDB_in_window : bool;
  clock : nat -> Z;
  clock_reads : nat;
  idb_fault : nat -> bool;
  idb_requests : nat;
  cache_store : gmap jsstring SubtitleCache;
  db : bool;
  initPromise : option bool;
  fetch_log : list TranscribeRequest;
  fetch_reply : nat -> FetchOutcome
}.

Definition M (A : Type) : Type := World -> Completion A * World.

Definition ret {A} (a : A) : M A := fun w => (Normal a, w).

Definition throw {A} (e : JsError) : M A := fun w => (Throw e, w).

Definition bind {A B} (m : M A) (k : A -> M B) : M B :=
  fun w =>
    match m w with
    | (Normal a, w') => k a w'
    | (Throw e, w') => (Throw e, w')
    end.

(** [try { body } catch (error) { handler }]. *)
Definition try_catch {A} (body : M A) (handler : JsError -> M A) : M A :=
  fun w =>
    match body w with
    | (Normal a, w') => (Normal a, w')
    | (Throw e, w') => handler e w'
    end.

Declare Scope js_scope.
Delimit Scope js_scope with js.
Notation "'let*' x ':=' m 'in' k" := (bind m (fun x => k))
  (at level 10, x pattern, m at level 100, k at level 200) : js_scope.

Definition with_clock_reads (n : nat) (w : World) : World :=
  {| indexedDB_in_window := indexedDB_in_window w; clock := clock w;
     clock_reads := n; idb_fault := idb_fault w;
     idb_requests := idb_requests w; cache_store := cache_store w;
     db := db w; initPromise := initPromise w;
     fetch_log := fetch_log w; fetch_reply := fetch_reply w |}.

Definition with_idb_requests (n : nat) (w : World) : World :=
  {| indexedDB_in_window := indexedDB_in_window w; clock := clock w;
     clock_reads := clock_reads w; idb_fault := idb_fault w;
     idb_requests := n; cache_store := cache_store w;
     db := db w; initPromise := initPromise w;
     fetch_log := fetch_log w; fetch_reply := fetch_reply w |}.

Definition with_cache_store (m : gmap jsstring SubtitleCache) (w : World)
  : World :=
  {| indexedDB_in_window := indexedDB_in_window w; clock := clock w;
     clock_reads := clock_reads w; idb_fault := idb_fault w;
     idb_requests := idb_requests w; cache_store := m;
     db := db w; initPromise := initPromise w;
     fetch_log := fetch_log w; fetch_reply := fetch_reply w |}.

Definition with_init (handle : bool) (p : option bool) (w : World) : World :=
  {| indexedDB_in_window := indexedDB_in_window w; clock := clock w;
     clock_reads := clock_reads w; idb_fault := idb_fault w;
     idb_requests := idb_requests w; cache_store := cache_store w;
     db := handle; initPromise := p;
     fetch_log := fetch_log w; fetch_reply := fetch_reply w |}.

Definition with_fetch_log (l : list TranscribeRequest) (w : World) : World :=
  {| indexedDB_in_window := indexedDB_in_window w; clock := clock w;
     clock_reads := clock_reads w; idb_fault := idb_fault w;
     idb_requests := idb_requests w; cache_store := cache_store w;
     db := db w; initPromise := initPromise w;
     fetch_log := l; fetch_reply := fetch_reply w |}.

(** [Date.now()]. *)
Definition Date_now : M Z :=
  fun w => (Normal (clock w (clock_reads w)),
            with_clock_reads (S (clock_reads w)) w).

(** One IndexedDB request: it is counted, and rejected when the fault
    oracle says so. *)
Definition idb_request : M unit :=
  fun w =>
    let w' := with_idb_requests (S (idb_requests w)) w in
    if idb_fault w (idb_requests w) then (Throw DOMException, w')
    else (Normal tt, w').

Definition get_store : M (gmap jsstring SubtitleCache) :=
  fun w => (Normal (cache_store w), w).

Definition put_store (m : gmap jsstring SubtitleCache) : M unit :=
  fun w => (Normal tt, with_cache_store m w).

(** A read-write transaction: a rejected request aborts it, which undoes
    the writes made inside. *)
Definition transaction {A} (body : M A) : M A :=
  fun w =>
    match body w with
    | (Normal a, w') => (Normal a, w')
    | (Throw e, w') => (Throw e, with_cache_store (cache_store w) w')
    end.

End Runtime.

(* ===================================================================== *)
(** * services/indexedDBStorage.ts *)
(* ===================================================================== *)

Module IndexedDBStorage.
Import Runtime.
Local Open Scope js_scope.

Definition CACHE_TTL : Z := 30 * 24 * 60 * 60 * 1000.

(** [initialize()]: the memoised promise is returned when there is one;
    otherwise [openDB] is awaited and its outcome memoised. *)
Definition initialize : M unit :=
  fun w =>
    match initPromise w with
    | Some true => (Normal tt, w)
    | Some false => (Throw (Error (js "INDEXEDDB_INIT_FAILED")), w)
    | None =>
        match idb_request w with
        | (Normal _, w') => (Normal tt, with_init true (Some true) w')
        | (Throw _, w') =>
            (Throw (Error (js "INDEXEDDB_INIT_FAILED")),
             with_init (db w') (Some false) w')
        end
    end.

(** [isAvailable()]. *)
Definition isAvailable : M bool :=
  fun w => (Normal (indexedDB_in_window w), w).

(** [this.db] read as a truth value. *)
Definition this_db : M bool := fun w => (Normal (db w), w).

(** [db.put], [db.get], [db.delete], [db.clear] on the cache store; the
    key of a record is its [videoId] (the store's [keyPath]). *)
Definition db_put (c : SubtitleCache) : M unit :=
  let* _ := idb_request in
  let* m := get_store in
  put_store (<[videoId c := c]> m).

Definition db_get (k : jsstring) : M (option SubtitleCache) :=
  let* _ := idb_request in
  let* m := get_store in
  ret (m !! k).

Definition db_delete (k : jsstring) : M unit :=
  let* _ := idb_request in
  let* m := get_store in
  put_store (delete k m).

Definition db_clear : M unit :=
  let* _ := idb_request in
  put_store ∅.

Definition saveSubtitleCache (cache : SubtitleCache) : M unit :=
  let* available := isAvailable in
  if negb available then throw (Error (js "INDEXEDDB_NOT_AVAILABLE"))
  else
    let* _ := initialize in
    let* handle := this_db in
    if negb handle then throw (Error (js "INDEXEDDB_NOT_INITIALIZED"))
    else
      try_catch
        (let* t1 := Date_now in
         let* t2 := Date_now in
         db_put {| videoId := videoId cache;
                   subtitles := subtitles cache;
                   cachedAt := t1;
                   expiresAt := t2 + CACHE_TTL;
                   source := source cache;
                   language := language cache |})
        (fun _ => throw (Error (js "CACHE_SAVE_FAILED"))).

Definition loadSubtitleCache (vid : jsstring) : M (option SubtitleCache) :=
  let* available := isAvailable in
  if negb available then ret None
  else
    let* _ := initialize in
    let* handle := this_db in
    if negb handle then ret None
    else
      try_catch
        (let* cache := db_get vid in
         match cache with
         | None => ret None
         | Some c =>
             let* now := Date_now in
             if expiresAt c <? now then
               let* _ := db_delete vid in
               ret None
             else ret (Some c)
         end)
        (fun _ => ret None).

(** The keys the cursor over [IDBKeyRange.upperBound(now)] on the index
    ['by-expires'] visits (an upper bound is inclusive).  The order of
    the visit is left open: a rejected request aborts the whole
    transaction, so the order shows in no outcome. *)
Definition keys_upTo (now : Z) (m : gmap jsstring SubtitleCache)
  : list jsstring :=
  (map_to_list (filter (fun kv => expiresAt kv.2 <= now) m)).*1.

(** The [while (cursor)] loop: [cursor.delete()], the count, then
    [cursor.continue()]. *)
Fixpoint cursor_loop (keys : list jsstring) (deletedCount : nat) : M nat :=
  match keys with
  | [] => ret deletedCount
  | k :: rest =>
      let* _ := idb_request in
      let* m := get_store in
      let* _ := put_store (delete k m) in
      let* _ := idb_request in
      cursor_loop rest (S deletedCount)
  end.

Definition clearExpiredCache : M nat :=
  let* available := isAvailable in
  if negb available then ret 0%nat
  else
    let* _ := initialize in
    let* handle := this_db in
    if negb handle then ret 0%nat
    else
      try_catch
        (let* now := Date_now in
         transaction
           (let* _ := idb_request in
            let* m := get_store in
            let* deletedCount := cursor_loop (keys_upTo now m) 0%nat in
            let* _ := idb_request in
            ret deletedCount))
        (fun _ => ret 0%nat).

Definition clearVideoCache (vid : jsstring) : M unit :=
  let* available := isAvailable in
  if negb available then ret tt
  else
    let* _ := initialize in
    let* handle := this_db in
    if negb handle then ret tt
    else try_catch (db_delete vid) (fun _ => ret tt).

Definition clearAllCache : M unit :=
  let* available := isAvailable in
  if negb available then ret tt
  else
    let* _ := initialize in
    let* handle := this_db in
    if negb handle then ret tt
    else try_catch db_clear (fun _ => ret tt).

Record CacheStats : Type := {
  totalEntries : nat;
  expiredEntries : nat
}.

Definition getCacheStats : M CacheStats :=
  let* available := isAvailable in
  if negb available then ret {| totalEntries := 0; expiredEntries := 0 |}
  else
    let* _ := initialize in
    let* handle := this_db in
    if negb handle then ret {| totalEntries := 0; expiredEntries := 0 |}
    else
      try_catch
        (let* now := Date_now in
         let* _ := idb_request in
         let* m := get_store in
         let total := size m in
         let* _ := idb_request in
         let expired := length (keys_upTo now m) in
         let* _ := idb_request in
         ret {| totalEntries := total; expiredEntries := expired |})
        (fun _ => ret {| totalEntries := 0; expiredEntries := 0 |}).

End IndexedDBStorage.

(* ===================================================================== *)
(** * services/speechRecognition.ts *)
(* ===================================================================== *)

Module SpeechRecognition.
Import Runtime.
Local Open Scope js_scope.

(** [SpeechRecognitionOptions]; an optional property left out is [None]. *)
Record SpeechRecognitionOptions : Type := {
  opt_videoId : jsstring;
  opt_audioUrl : jsstring;
  opt_language : option jsstring;
  opt_forceRefresh : option bool
}.

Record SpeechRecognitionResult : Type := {
  res_videoId : jsstring;
  res_subtitles : option (list SubtitleParser.SubtitleSegment);
  res_source : Source;
  res_language : jsstring;
  res_cached : bool
}.

Definition hasCachedResult (vid : jsstring) : M bool :=
  try_catch
    (let* cache := IndexedDBStorage.loadSubtitleCache vid in
     ret (match cache with
          | Some c => Source_eqb (source c) speech_recognition
          | None => false
          end))
    (fun _ => ret false).

(** [getCachedResult]: [None] stands for a falsy result ([null], or an
    entry whose [subtitles] property is [undefined]). *)
Definition getCachedResult (vid : jsstring)
  : M (option (list SubtitleParser.SubtitleSegment)) :=
  try_catch
    (let* cache := IndexedDBStorage.loadSubtitleCache vid in
     match cache with
     | Some c =>
         if Source_eqb (source c) speech_recognition then ret (subtitles c)
         else ret None
     | None => ret None
     end)
    (fun _ => ret None).

(** The [try] block of [cacheResult]. *)
Definition cacheResult_try (vid : jsstring)
    (subs : option (list SubtitleParser.SubtitleSegment))
    (lang : jsstring) : M unit :=
  let* t1 := Date_now in
  let* t2 := Date_now in
  IndexedDBStorage.saveSubtitleCache
    {| videoId := vid;
       subtitles := subs;
       cachedAt := t1;
       expiresAt := t2 + 30 * 24 * 60 * 60 * 1000;
       source := speech_recognition;
       language := lang |}.

Definition cacheResult (vid : jsstring)
    (subs : option (list SubtitleParser.SubtitleSegment))
    (lang : jsstring) : M unit :=
  try_catch (cacheResult_try vid subs lang) (fun _ => ret tt).

Definition clearCache (vid : jsstring) : M unit :=
  try_catch (IndexedDBStorage.clearVideoCache vid) (fun _ => ret tt).

(** A call of [transcribeVideo] suspended at [await fetch(...)]. *)
Record Pending : Type := {
  pend_videoId : jsstring;
  pend_language : jsstring;
  pend_request : nat
}.

(** [fetch('/api/bilibili/speech/transcribe', ...)]: the request leaves,
    and its position in the log identifies it. *)
Definition fetch_send (r : TranscribeRequest) : M nat :=
  fun w => (Normal (length (fetch_log w)),
            with_fetch_log (fetch_log w ++ [r]) w).

(** The settlement of the n-th request. *)
Definition fetch_settle (n : nat) : M FetchOutcome :=
  fun w => (Normal (fetch_reply w n), w).

(** [await response.json()]. *)
Definition response_json (r : Response) : M JsonBody :=
  match resp_body r with
  | BodyJson data => ret data
  | BodyNotJson => throw SyntaxError
  end.

(** The literals ['zh'], ['语音识别失败'] and ['\n详细信息: ']. *)
Definition zh : jsstring := js "zh".

Definition msg_failed : jsstring :=
  [0x8BED; 0x97F3; 0x8BC6; 0x522B; 0x5931; 0x8D25]%N.

Definition msg_details : jsstring :=
  [10; 0x8BE6; 0x7EC6; 0x4FE1; 0x606F; 58; 32]%N.

(** The error built from a reply that is not [ok]. *)
Definition error_of_reply (st : Z) (errorData : JsonBody) : JsError :=
  let errorMessage :=
    or_else (body_message errorData)
      (or_else (body_error errorData) msg_failed) in
  let errorDetails := or_else (body_details errorData) [] in
  let fullMessage :=
    match errorDetails with
    | [] => errorMessage
    | _ :: _ => errorMessage ++ msg_details ++ errorDetails
    end in
  {| message := fullMessage;
     code := body_error errorData;
     status := Some st;
     retryable := Some (negb (st =? 501) && negb (st =? 500)) |}.

(** [transcribeVideo] from its entry to [await fetch(...)]: either the
    cached result is returned, or the request has been sent. *)
Definition transcribe_start (options : SpeechRecognitionOptions)
  : M (SpeechRecognitionResult + Pending) :=
  let vid := opt_videoId options in
  let audioUrl := opt_audioUrl options in
  let lang := default zh (opt_language options) in
  let forceRefresh := default false (opt_forceRefresh options) in
  let* cached :=
    (if negb forceRefresh then getCachedResult vid else ret None) in
  match cached with
  | Some subs =>
      ret (inl {| res_videoId := vid;
                  res_subtitles := Some subs;
                  res_source := speech_recognition;
                  res_language := lang;
                  res_cached := true |})
  | None =>
      let* n := fetch_send {| req_videoId := vid;
                              req_audioUrl := audioUrl;
                              req_language := lang |} in
      ret (inr {| pend_videoId := vid;
                  pend_language := lang;
                  pend_request := n |})
  end.

(** [transcribeVideo] from the settlement of the fetch to its end.  The
    enclosing [catch] logs and rethrows, so a rejection passes through. *)
Definition transcribe_finish (p : Pending) (o : FetchOutcome)
  : M SpeechRecognitionResult :=
  match o with
  | FetchRejected e => throw e
  | FetchResponse response =>
      if negb (ok response) then
        let* errorData := response_json response in
        throw (error_of_reply (resp_status response) errorData)
      else
        let* data := response_json response in
        let subs := body_subtitles data in
        let* _ := cacheResult (pend_videoId p) subs (pend_language p) in
        ret {| res_videoId := pend_videoId p;
               res_subtitles := subs;
               res_source := speech_recognition;
               res_language := pend_language p;
               res_cached := false |}
  end.

(** [transcribeVideo] run without interleaving. *)
Definition transcribeVideo (options : SpeechRecognitionOptions)
  : M SpeechRecognitionResult :=
  let* r := transcribe_start options in
  match r with
  | inl result => ret result
  | inr p =>
      let* o := fetch_settle (pend_request p) in
      transcribe_finish p o
  end.

(** ** The await points of [transcribeVideo] before its reply

    A call suspends at [await this.getCachedResult(videoId)] and again
    at [await fetch(...)]; another call can run in between. *)

(** From the entry to the end of the cache read, which [forceRefresh]
    skips. *)
Definition transcribe_lookup (options : SpeechRecognitionOptions)
  : M (option (list SubtitleParser.SubtitleSegment)) :=
  let vid := opt_videoId options in
  let forceRefresh := default false (opt_forceRefresh options) in
  if negb forceRefresh then getCachedResult vid else ret None.

(** From the end of the cache read to [await fetch(...)]. *)
Definition transcribe_request (options : SpeechRecognitionOptions)
    (cached : option (list SubtitleParser.SubtitleSegment))
  : M (SpeechRecognitionResult + Pending) :=
  let vid := opt_videoId options in
  let audioUrl := opt_audioUrl options in
  let lang := default zh (opt_language options) in
  match cached with
  | Some subs =>
      ret (inl {| res_videoId := vid;
                  res_subtitles := Some subs;
                  res_source := speech_recognition;
                  res_language := lang;
                  res_cached := true |})
  | None =>
      let* n := fetch_send {| req_videoId := vid;
                              req_audioUrl := audioUrl;
                              req_language := lang |} in
      ret (inr {| pend_videoId := vid;
                  pend_language := lang;
                  pend_request := n |})
  end.

(** Where a call stands: its cache read is outstanding; the read is done
    and the continuation has not run yet; it waits for the reply to its
    request; it has returned the cached result. *)
Inductive Call : Type :=
| AtCacheRead
| AtRequest (cached : option (list SubtitleParser.SubtitleSegment))
| AtFetch (p : Pending)
| Returned (r : SpeechRecognitionResult).

(** The call runs to its next await.  A call that waits for its reply
    stays where it is: replies are not the scheduler's to give.  A call
    with [forceRefresh] has no await before its request; giving its two
    steps separate turns admits more interleavings than the code has,
    never fewer.  The cache read is taken as one step. *)
Definition advance (options : SpeechRecognitionOptions) (c : Call)
  : M Call :=
  match c with
  | AtCacheRead =>
      let* cached := transcribe_lookup options in
      ret (AtRequest cached)
  | AtRequest cached =>
      let* r := transcribe_request options cached in
      ret (match r with
           | inl result => Returned result
           | inr p => AtFetch p
           end)
  | AtFetch _ | Returned _ => ret c
  end.

(** Two calls run under a schedule: [false] lets the first call run to
    its next await, [true] the second. *)
Fixpoint interleave (o1 o2 : SpeechRecognitionOptions) (sched : list bool)
    (c1 c2 : Call) : M (Call * Call) :=
  match sched with
  | [] => ret (c1, c2)
  | false :: rest =>
      let* c1' := advance o1 c1 in
      interleave o1 o2 rest c1' c2
  | true :: rest =>
      let* c2' := advance o2 c2 in
      interleave o1 o2 rest c1 c2'
  end.

(** The number of turns the schedule gives to a call. *)
Definition steps_of (b : bool) (sched : list bool) : nat :=
  length (List.filter (Bool.eqb b) sched).

End SpeechRecognition.

(* ===================================================================== *)
(** * app/api/bilibili/speech/transcribe/route.ts *)
(* ===================================================================== *)

Module TranscribeRoute.
Import Runtime.

(** What the body of the [try] block ends in once the parameters and the
    key have been checked. *)
Inductive Work : Type :=
| Transcribed (subs : list SubtitleParser.SubtitleSegment)
| OpenAI_APIError (st : option Z) (msg : jsstring)
| OtherError (msg : jsstring).

Definition falsy (s : option jsstring) : bool :=
  match s with
  | Some (_ :: _) => false
  | _ => true
  end.

Definition json_error (err msg : jsstring) (details : option jsstring)
  : Body :=
  BodyJson {| body_error := Some err; body_message := Some msg;
              body_details := details; body_subtitles := None |}.

(** [error.status || 500]. *)
Definition status_or_500 (st : option Z) : Z :=
  match st with
  | Some n => if n =? 0 then 500 else n
  | None => 500
  end.

(** The reply of [POST] for a request body holding [videoId], with the
    environment variable [OPENAI_API_KEY] and the outcome of the work. *)
Definition POST (videoId OPENAI_API_KEY : option jsstring) (work : Work)
  : Response :=
  if falsy videoId then
    {| resp_status := 400;
       resp_body := json_error (js "INVALID_PARAMS")
                      (js "videoId is required") None |}
  else if falsy OPENAI_API_KEY then
    {| resp_status := 500;
       resp_body :=
         json_error (js "API_ERROR")
           (js "OpenAI API key not configured. Please set OPENAI_API_KEY in .env.local")
           (Some (js "Refer to OPENAI_BASEURL_CONFIG.md for configuration instructions")) |}
  else
    match work with
    | Transcribed subs =>
        {| resp_status := 200;
           resp_body := BodyJson {| body_error := None;
                                    body_message := None;
                                    body_details := None;
                                    body_subtitles := Some subs |} |}
    | OpenAI_APIError st msg =>
        {| resp_status := status_or_500 st;
           resp_body := json_error (js "API_ERROR") msg None |}
    | OtherError msg =>
        {| resp_status := 500;
           resp_body := json_error (js "TRANSCRIPTION_FAILED")
                          (js "Failed to transcribe audio") (Some msg) |}
    end.

End TranscribeRoute.

(* ===================================================================== *)
(** * app/video/[videoId]/page.tsx: the transcription trigger *)
(* ===================================================================== *)

Module VideoPage.
Import Runtime.

Inductive SubtitleError : Type :=
| NO_SUBTITLES | SUBTITLE_FETCH_FAILED | SUBTITLE_PARSE_ERROR.

Inductive Status : Type :=
| idle | pending | processing | completed | failed.

Definition is_NO_SUBTITLES (e : option SubtitleError) : bool :=
  match e with Some NO_SUBTITLES => true | _ => false end.

Definition is_pending (s : Status) : bool :=
  match s with pending => true | _ => false end.

Definition is_completed (s : Status) : bool :=
  match s with completed => true | _ => false end.

(** The state the trigger reads and writes: [video] (its [id]), the
    outputs of [useSubtitles], the four [useState] cells of the page, and
    the calls of [speechRecognitionService.transcribeVideo] made so far. *)
Record PageState : Type := {
  video : option jsstring;
  isSpeechRecognition : bool;
  subtitleError : option SubtitleError;
  speechRecognitionStatus : Status;
  isTranscribing : bool;
  transcriptionError : option jsstring;
  hasAttemptedTranscription : bool;
  isNonRetryableError : bool;
  transcribe_calls : list SpeechRecognition.SpeechRecognitionOptions
}.

Definition audioUrl_of (vid : jsstring) : jsstring :=
  js "https://bilibili.com/video/" ++ vid ++ js "/audio".

(** ['语音识别失败，请稍后重试'] and ['，请稍后重试']. *)
Definition msg_retry_later : jsstring :=
  [0xFF0C; 0x8BF7; 0x7A0D; 0x540E; 0x91CD; 0x8BD5]%N.

Definition msg_default : jsstring :=
  SpeechRecognition.msg_failed ++ msg_retry_later.

Fixpoint strip_prefix (pat s : jsstring) : option jsstring :=
  match pat, s with
  | [], _ => Some s
  | _ :: _, [] => None
  | a :: pat', b :: s' => if (a =? b)%N then strip_prefix pat' s' else None
  end.

(** [s.replace(pat, '')]: the first occurrence of [pat] is removed. *)
Fixpoint remove_first (pat s : jsstring) : jsstring :=
  match strip_prefix pat s with
  | Some rest => rest
  | None =>
      match s with
      | [] => []
      | c :: r => c :: remove_first pat r
      end
  end.

Definition is_false (b : option bool) : bool :=
  match b with Some false => true | _ => false end.

Definition is_501 (st : option Z) : bool :=
  match st with Some n => n =? 501 | None => false end.

Definition is_NOT_IMPLEMENTED (c : option jsstring) : bool :=
  match c with
  | Some s => bool_decide (s = js "NOT_IMPLEMENTED")
  | None => false
  end.

(** [err.retryable === false || err.status === 501]. *)
Definition nonRetryable (err : JsError) : bool :=
  is_false (retryable err) || is_501 (status err).

Inductive Event : Type :=
| EffectRun
| TranscribeFulfilled
| TranscribeRejected (err : JsError)
| RetryClicked
| DismissClicked
| CloseErrorClicked
| SubtitlesChanged (sr : bool) (e : option SubtitleError) (st : Status)
| VideoLoaded (vid : jsstring)
| VideoIdChanged.

(** [triggerSpeechRecognition] up to its [await]. *)
Definition effect (s : PageState) : PageState :=
  match video s with
  | None => s
  | Some vid =>
      if negb (isSpeechRecognition s)
         || isTranscribing s
         || is_completed (speechRecognitionStatus s)
         || hasAttemptedTranscription s
         || isNonRetryableError s
      then s
      else if is_NO_SUBTITLES (subtitleError s)
              && is_pending (speechRecognitionStatus s)
      then
        {| video := video s;
           isSpeechRecognition := isSpeechRecognition s;
           subtitleError := subtitleError s;
           speechRecognitionStatus := speechRecognitionStatus s;
           isTranscribing := true;
           transcriptionError := None;
           hasAttemptedTranscription := true;
           isNonRetryableError := isNonRetryableError s;
           transcribe_calls :=
             transcribe_calls s ++
             [ {| SpeechRecognition.opt_videoId := vid;
                  SpeechRecognition.opt_audioUrl := audioUrl_of vid;
                  SpeechRecognition.opt_language := Some (js "zh");
                  SpeechRecognition.opt_forceRefresh := None |} ] |}
      else s
  end.

(** The [catch] block followed by the [finally] block. *)
Definition rejected (err : JsError) (s : PageState) : PageState :=
  let errorMessage :=
    match message err with
    | [] => msg_default
    | _ :: _ => message err
    end in
  let errorMessage' :=
    if nonRetryable err
       && (is_NOT_IMPLEMENTED (code err) || is_501 (status err))
    then remove_first msg_retry_later (message err)
    else errorMessage in
  {| video := video s;
     isSpeechRecognition := isSpeechRecognition s;
     subtitleError := subtitleError s;
     speechRecognitionStatus := speechRecognitionStatus s;
     isTranscribing := false;
     transcriptionError := Some errorMessage';
     hasAttemptedTranscription := hasAttemptedTranscription s;
     isNonRetryableError :=
       if nonRetryable err then true else isNonRetryableError s;
     transcribe_calls := transcribe_calls s |}.

Definition step (s : PageState) (ev : Event) : PageState :=
  match ev with
  | EffectRun => effect s
  | TranscribeFulfilled =>
      {| video := video s;
         isSpeechRecognition := isSpeechRecognition s;
         subtitleError := subtitleError s;
         speechRecognitionStatus := speechRecognitionStatus s;
         isTranscribing := false;
         transcriptionError := transcriptionError s;
         hasAttemptedTranscription := hasAttemptedTranscription s;
         isNonRetryableError := isNonRetryableError s;
         transcribe_calls := transcribe_calls s |}
  | TranscribeRejected err => rejected err s
  | RetryClicked =>
      (* handleRetryTranscription *)
      {| video := video s;
         isSpeechRecognition := isSpeechRecognition s;
         subtitleError := subtitleError s;
         speechRecognitionStatus := speechRecognitionStatus s;
         isTranscribing := isTranscribing s;
         transcriptionError := None;
         hasAttemptedTranscription := false;
         isNonRetryableError := isNonRetryableError s;
         transcribe_calls := transcribe_calls s |}
  | DismissClicked | CloseErrorClicked =>
      (* handleDismissError; the close button of the error box *)
      {| video := video s;
         isSpeechRecognition := isSpeechRecognition s;
         subtitleError := subtitleError s;
         speechRecognitionStatus := speechRecognitionStatus s;
         isTranscribing := isTranscribing s;
         transcriptionError := None;
         hasAttemptedTranscription := hasAttemptedTranscription s;
         isNonRetryableError := isNonRetryableError s;
         transcribe_calls := transcribe_calls s |}
  | SubtitlesChanged sr e st =>
      {| video := video s;
         isSpeechRecognition := sr;
         subtitleError := e;
         speechRecognitionStatus := st;
         isTranscribing := isTranscribing s;
         transcriptionError := transcriptionError s;
         hasAttemptedTranscription := hasAttemptedTranscription s;
         isNonRetryableError := isNonRetryableError s;
         transcribe_calls := transcribe_calls s |}
  | VideoLoaded vid =>
      {| video := Some vid;
         isSpeechRecognition := isSpeechRecognition s;
         subtitleError := subtitleError s;
         speechRecognitionStatus := speechRecognitionStatus s;
         isTranscribing := isTranscribing s;
         transcriptionError := transcriptionError s;
         hasAttemptedTranscription := hasAttemptedTranscription s;
         isNonRetryableError := isNonRetryableError s;
         transcribe_calls := transcribe_calls s |}
  | VideoIdChanged =>
      (* the reset effect on [videoId] *)
      {| video := video s;
         isSpeechRecognition := isSpeechRecognition s;
         subtitleError := subtitleError s;
         speechRecognitionStatus := speechRecognitionStatus s;
         isTranscribing := isTranscribing s;
         transcriptionError := None;
         hasAttemptedTranscription := false;
         isNonRetryableError := false;
         transcribe_calls := transcribe_calls s |}
  end.

Definition run (s : PageState) (evs : list Event) : PageState :=
  fold_left step evs s.


End VideoPage.

(* ===================================================================== *)
(** * Specification vocabulary *)
(* ===================================================================== *)

Module Spec.
Import SubtitleParser.

(** The list is sorted ascending by [startTime]: every segment starts no
    later than each segment after it. *)
Definition sorted_by_startTime (l : list SubtitleSegment) : Prop :=
  StronglySorted
    (fun a b => (startTime a <=? startTime b)%float = true) l.

(** [startTime <= t < endTime]. *)
Definition covers (t : float) (s : SubtitleSegment) : Prop :=
  (startTime s <=? t)%float = true /\ (t <? endTime s)%float = true.

(** [s] is the first segment of [l], in list order, that covers [t]. *)
Definition first_covering (t : float) (l : list SubtitleSegment)
    (s : SubtitleSegment) : Prop :=
  exists pre post,
    l = pre ++ s :: post /\ covers t s /\ Forall (fun x => ~ covers t x) pre.

(** The parser's rules, as violations. *)
Definition numeric (v : JsValue) : Prop := exists x, v = JNumber x.

Definition to_le_from (item : BilibiliSubtitleItem) : Prop :=
  exists x y, item_from item = JNumber x /\ item_to item = JNumber y
              /\ (y <=? x)%float = true.

Definition from_negative (item : BilibiliSubtitleItem) : Prop :=
  exists x, item_from item = JNumber x /\ (x <? 0)%float = true.

(** The content, after trimming, is non-empty. *)
Definition has_text (v : JsValue) : Prop :=
  exists s, v = JString s /\ trim s <> [].

Definition violates (item : BilibiliSubtitleItem) : Prop :=
  ~ numeric (item_from item) \/ ~ numeric (item_to item)
  \/ to_le_from item \/ from_negative item
  \/ ~ has_text (item_content item).

(** ** The cache *)

Import Runtime.

(** No IndexedDB request is rejected. *)
Definition no_faults (w : World) : Prop :=
  forall i, idb_fault w i = false.

(** The service has not opened the database yet, or holds its handle. *)
Definition service_ready (w : World) : Prop :=
  (db w = false /\ initPromise w = None)
  \/ (db w = true /\ initPromise w = Some true).

(** The persistent store is available and works. *)
Definition healthy (w : World) : Prop :=
  indexedDB_in_window w = true /\ no_faults w /\ service_ready w.

(** The next value [Date.now()] returns, and the one after it. *)
Definition now (w : World) : Z := clock w (clock_reads w).

Definition now_next (w : World) : Z := clock w (S (clock_reads w)).

(** What a [put] of [c] stores. *)
Definition stamped (w : World) (c : SubtitleCache) : SubtitleCache :=
  {| videoId := videoId c;
     subtitles := subtitles c;
     cachedAt := now w;
     expiresAt := now_next w + IndexedDBStorage.CACHE_TTL;
     source := source c;
     language := language c |}.

(** Two worlds agree on everything but the service's bookkeeping. *)
Definition same_env (w w' : World) : Prop :=
  indexedDB_in_window w' = indexedDB_in_window w
  /\ clock w' = clock w
  /\ idb_fault w' = idb_fault w
  /\ fetch_log w' = fetch_log w
  /\ fetch_reply w' = fetch_reply w.

(** [stats().totalEntries]. *)
Definition totalEntries_of (w : World) : nat := size (cache_store w).

(** An operation ends without throwing. *)
Definition returns {A} (m : M A) (w : World) : Prop :=
  exists a, fst (m w) = Normal a.

(** Lazy eviction with the bound [expiresAt <= now]. *)
Definition evicts_at_or_before_now : Prop :=
  forall w vid c,
    healthy w -> cache_store w !! vid = Some c -> expiresAt c <= now w ->
    fst (IndexedDBStorage.loadSubtitleCache vid w) = Normal None
    /\ cache_store (snd (IndexedDBStorage.loadSubtitleCache vid w))
       = delete vid (cache_store w).

(** Every cache operation ends without throwing when IndexedDB is
    missing. *)
Definition all_operations_degrade : Prop :=
  forall w vid c,
    indexedDB_in_window w = false ->
    returns (IndexedDBStorage.saveSubtitleCache c) w
    /\ returns (IndexedDBStorage.loadSubtitleCache vid) w
    /\ returns (IndexedDBStorage.clearVideoCache vid) w
    /\ returns IndexedDBStorage.clearAllCache w
    /\ returns IndexedDBStorage.clearExpiredCache w
    /\ returns IndexedDBStorage.getCacheStats w.

(** ** The transcription service *)

Import SpeechRecognition.

(** The request a call sends. *)
Definition request_of (o : SpeechRecognitionOptions) : TranscribeRequest :=
  {| req_videoId := opt_videoId o;
     req_audioUrl := opt_audioUrl o;
     req_language := default zh (opt_language o) |}.

(** The result of a call, up to its segments and its [cached] flag. *)
Definition result_of (o : SpeechRecognitionOptions)
    (subs : option (list SubtitleParser.SubtitleSegment)) (cached : bool)
  : SpeechRecognitionResult :=
  {| res_videoId := opt_videoId o;
     res_subtitles := subs;
     res_source := speech_recognition;
     res_language := default zh (opt_language o);
     res_cached := cached |}.

(** The entry [cacheResult] hands to [saveSubtitleCache] in world [w]. *)
Definition entry_of (w : World) (vid : jsstring)
    (subs : option (list SubtitleParser.SubtitleSegment)) (lang : jsstring)
  : SubtitleCache :=
  {| videoId := vid;
     subtitles := subs;
     cachedAt := now w;
     expiresAt := now_next w + 30 * 24 * 60 * 60 * 1000;
     source := speech_recognition;
     language := lang |}.

(** The world in which that call of [saveSubtitleCache] starts. *)
Definition at_save (w : World) : World :=
  with_clock_reads (S (S (clock_reads w))) w.

(** At most one request in flight: a call made for the same video while
    an earlier call is waiting for its reply sends no request. *)
Definition single_flight : Prop :=
  forall w o1 o2 p1 w1,
    opt_videoId o2 = opt_videoId o1 ->
    transcribe_start o1 w = (Normal (inr p1), w1) ->
    fetch_log (snd (transcribe_start o2 w1)) = fetch_log w1.

(** The kinds of failure the classification rule names. *)
Inductive FailureKind : Type :=
| TransientNetwork | RateLimit | ServerError
| MissingConfiguration | NotImplemented | MalformedRequest.

(** Retryable: transient network, rate limit, server error; terminal:
    configuration, not implemented, malformed request. *)
Definition retryable_kind (k : FailureKind) : bool :=
  match k with
  | TransientNetwork | RateLimit | ServerError => true
  | MissingConfiguration | NotImplemented | MalformedRequest => false
  end.

(** Replies of the transcription route whose kind is plain: a request
    without [videoId] is malformed; a missing API key is a missing
    configuration; an upstream 429 is a rate limit; an upstream 5xx other
    than 501 is a server error; 501 is "not implemented". *)
Inductive reply_kind : Response -> FailureKind -> Prop :=
| kind_malformed key work :
    reply_kind (TranscribeRoute.POST None key work) MalformedRequest
| kind_configuration vid work :
    TranscribeRoute.falsy (Some vid) = false ->
    reply_kind (TranscribeRoute.POST (Some vid) None work)
      MissingConfiguration
| kind_rate_limit vid key msg :
    TranscribeRoute.falsy (Some vid) = false ->
    TranscribeRoute.falsy (Some key) = false ->
    reply_kind
      (TranscribeRoute.POST (Some vid) (Some key)
         (TranscribeRoute.OpenAI_APIError (Some 429) msg))
      RateLimit
| kind_server_error vid key st msg :
    TranscribeRoute.falsy (Some vid) = false ->
    TranscribeRoute.falsy (Some key) = false ->
    500 <= st <= 599 -> st <> 501 ->
    reply_kind
      (TranscribeRoute.POST (Some vid) (Some key)
         (TranscribeRoute.OpenAI_APIError (Some st) msg))
      ServerError
| kind_not_implemented vid key msg :
    TranscribeRoute.falsy (Some vid) = false ->
    TranscribeRoute.falsy (Some key) = false ->
    reply_kind
      (TranscribeRoute.POST (Some vid) (Some key)
         (TranscribeRoute.OpenAI_APIError (Some 501) msg))
      NotImplemented.

(** The error a caller of [transcribeVideo] receives for a reply. *)
Definition thrown_for (p : Pending) (r : Response) (w : World)
  : option JsError :=
  match fst (transcribe_finish p (FetchResponse r) w) with
  | Throw e => Some e
  | Normal _ => None
  end.

(** Every failure of a plain kind reaches the caller as a structured
    error whose [retryable] flag is the one of its kind. *)
Definition classified_by_kind : Prop :=
  forall p r k w,
    reply_kind r k ->
    exists e, thrown_for p r w = Some e
              /\ retryable e = Some (retryable_kind k).

(** ** The page *)




End Spec.

(* ===================================================================== *)
(** * Concrete inputs *)
(* ===================================================================== *)

Module Examples.
Import Runtime.

Definition seg_hi : SubtitleParser.SubtitleSegment :=
  {| SubtitleParser.id := js "subtitle-0";
     SubtitleParser.videoId := js "V1";
     SubtitleParser.startTime := 0;
     SubtitleParser.endTime := 5;
     SubtitleParser.text := js "hi";
     SubtitleParser.index := 0;
     SubtitleParser.language := Some (js "zh") |}.

Definition seg_there : SubtitleParser.SubtitleSegment :=
  {| SubtitleParser.id := js "subtitle-1";
     SubtitleParser.videoId := js "V1";
     SubtitleParser.startTime := 5;
     SubtitleParser.endTime := 10;
     SubtitleParser.text := js "there";
     SubtitleParser.index := 1;
     SubtitleParser.language := Some (js "zh") |}.

(** A speech-sourced cache entry for video [V1]. *)
Definition entry_V1 (cachedAt_ expiresAt_ : Z) : SubtitleCache :=
  {| videoId := js "V1";
     subtitles := Some [seg_hi; seg_there];
     cachedAt := cachedAt_;
     expiresAt := expiresAt_;
     source := speech_recognition;
     language := js "zh" |}.

(** The transcription route answers with the two segments. *)
Definition reply_ok : FetchOutcome :=
  FetchResponse
    (TranscribeRoute.POST (Some (js "V1")) (Some (js "sk-test"))
       (TranscribeRoute.Transcribed [seg_hi; seg_there])).

(** A browser with a working IndexedDB holding [m], whose clock shows
    [t] at every reading. *)
Definition browser (t : Z) (m : gmap jsstring SubtitleCache) : World :=
  {| indexedDB_in_window := true;
     clock := fun _ => t;
     clock_reads := 0;
     idb_fault := fun _ => false;
     idb_requests := 0;
     cache_store := m;
     db := false;
     initPromise := None;
     fetch_log := [];
     fetch_reply := fun _ => reply_ok |}.

(** The same without IndexedDB. *)
Definition browser_without_indexedDB (t : Z) : World :=
  {| indexedDB_in_window := false;
     clock := fun _ => t;
     clock_reads := 0;
     idb_fault := fun _ => false;
     idb_requests := 0;
     cache_store := ∅;
     db := false;
     initPromise := None;
     fetch_log := [];
     fetch_reply := fun _ => reply_ok |}.

Definition options_V1 (force : option bool)
  : SpeechRecognition.SpeechRecognitionOptions :=
  {| SpeechRecognition.opt_videoId := js "V1";
     SpeechRecognition.opt_audioUrl := js "https://bilibili.com/video/V1/audio";
     SpeechRecognition.opt_language := None;
     SpeechRecognition.opt_forceRefresh := force |}.

(** The page of video [V1] once [useSubtitles] has asked for speech
    recognition and nothing has been attempted yet. *)
Definition page_ready : VideoPage.PageState :=
  {| VideoPage.video := Some (js "V1");
     VideoPage.isSpeechRecognition := true;
     VideoPage.subtitleError := Some VideoPage.NO_SUBTITLES;
     VideoPage.speechRecognitionStatus := VideoPage.pending;
     VideoPage.isTranscribing := false;
     VideoPage.transcriptionError := None;
     VideoPage.hasAttemptedTranscription := false;
     VideoPage.isNonRetryableError := false;
     VideoPage.transcribe_calls := [] |}.


(** Three segments sorted by [startTime], the last two overlapping. *)
Definition seg_overlap : SubtitleParser.SubtitleSegment :=
  {| SubtitleParser.id := js "subtitle-2";
     SubtitleParser.videoId := js "V1";
     SubtitleParser.startTime := 7;
     SubtitleParser.endTime := 12;
     SubtitleParser.text := js "again";
     SubtitleParser.index := 2;
     SubtitleParser.language := Some (js "zh") |}.

End Examples.

(* ===================================================================== *)
(** * services/subtitleParser.ts, continued *)
(* ===================================================================== *)

Module SubtitleLookup.
Import SubtitleParser Runtime.

(** [subtitles.find((s) => s.id === segmentId) || null]. *)
Definition getSubtitleById (segmentId : jsstring)
    (subtitles : list SubtitleSegment) : option SubtitleSegment :=
  List.find (fun s => bool_decide (id s = segmentId)) subtitles.

(** An element of an array of unknown content: an object, read through
    its three properties, or a value that is not a record ([null], a
    primitive). *)
Inductive Element : Type :=
| ElemRecord (item : BilibiliSubtitleItem)
| ElemValue (v : JsValue).

(** The argument [data: any]. *)
Inductive AnyData : Type :=
| DataArray (l : list Element)
| DataOther (v : JsValue).

(** Reading a property of [null] throws. *)
Definition TypeError : JsError := Error (js "TypeError").

(** The callback of [data.every]: [typeof item === 'object'] lets [null]
    through, and [item.from] then throws. *)
Definition item_checks (e : Element) : Completion bool :=
  match e with
  | ElemRecord item =>
      Normal (JsType_eqb (typeof (item_from item)) TNumber
              && JsType_eqb (typeof (item_to item)) TNumber
              && JsType_eqb (typeof (item_content item)) TString)
  | ElemValue v =>
      if JsType_eqb (typeof v) TObject then
        match v with
        | JNull => Throw TypeError
        | _ => Normal false
        end
      else Normal false
  end.

(** [Array.prototype.every]: stops at the first [false]. *)
Fixpoint every (l : list Element) : Completion bool :=
  match l with
  | [] => Normal true
  | e :: r =>
      match item_checks e with
      | Normal true => every r
      | Normal false => Normal false
      | Throw err => Throw err
      end
  end.

Definition isValidSubtitleData (data : AnyData) : Completion bool :=
  match data with
  | DataOther _ => Normal false
  | DataArray l =>
      if (length l =? 0)%nat then Normal false
      else every l
  end.

End SubtitleLookup.

(* ===================================================================== *)
(** * route.ts, continued: [parseWhisperResponse] *)
(* ===================================================================== *)

Module Whisper.
Import SubtitleParser.

(** A segment of the verbose transcription: [start], [end], [text]. *)
Record WhisperSegment : Type := {
  seg_start : float;
  seg_end : float;
  seg_text : jsstring
}.

(** [transcription.segments] is [None] when it is missing. *)
Definition parseWhisperResponse (segments : option (list WhisperSegment))
    (vid lang : jsstring) : list SubtitleSegment :=
  match segments with
  | None => []
  | Some segs =>
      imap (fun i segment =>
              {| id := js "subtitle-" ++ index_toString i;
                 videoId := vid;
                 startTime := seg_start segment;
                 endTime := seg_end segment;
                 text := trim (seg_text segment);
                 index := i;
                 language := Some lang |}) segs
  end.

(** The segment as the raw record [parseSubtitles] reads. *)
Definition as_item (segment : WhisperSegment) : BilibiliSubtitleItem :=
  {| item_from := JNumber (seg_start segment);
     item_to := JNumber (seg_end segment);
     item_content := JString (seg_text segment) |}.

(** A segment without its [language] property. *)
Definition without_language (s : SubtitleSegment) : SubtitleSegment :=
  {| id := id s; videoId := videoId s; startTime := startTime s;
     endTime := endTime s; text := text s; index := index s;
     language := None |}.

End Whisper.

(* ===================================================================== *)
(** * services/speechRecognition.ts, continued: [checkStatus] *)
(* ===================================================================== *)

Module SpeechStatus.
Import Runtime.

Record TaskStatus : Type := {
  task_status : VideoPage.Status;
  task_progress : nat
}.

Definition checkStatus (vid : jsstring) : M TaskStatus :=
  bind (SpeechRecognition.hasCachedResult vid)
    (fun hasCached =>
       ret {| task_status :=
                if hasCached then VideoPage.completed else VideoPage.pending;
              task_progress := if hasCached then 100 else 0 |}).

End SpeechStatus.

(* ===================================================================== *)
(** * hooks/useSubtitles.ts and hooks/useSubtitleSync.ts *)
(* ===================================================================== *)

Module UseSubtitles.
Import Runtime.
Local Open Scope js_scope.

(** The six [useState] cells of the hook. *)
Record HookState : Type := {
  subtitles : list SubtitleParser.SubtitleSegment;
  isLoading : bool;
  error : option jsstring;
  isSpeechRecognition : bool;
  speechRecognitionStatus : VideoPage.Status;
  speechRecognitionProgress : nat
}.

(** How [service.fetchSubtitles(videoId, cid)] settles: with subtitle
    data, or rejected with an error whose [code] may be missing. *)
Inductive NativeOutcome : Type :=
| NativeSubtitles (subs : list SubtitleParser.SubtitleSegment)
| NativeRejected (code : option jsstring).

(** The state after the two [set...] calls that open the [try] block of
    [fallbackToSpeechRecognition]. *)
Definition fallback_started (h : HookState) : HookState :=
  {| subtitles := subtitles h;
     isLoading := isLoading h;
     error := error h;
     isSpeechRecognition := true;
     speechRecognitionStatus := VideoPage.pending;
     speechRecognitionProgress := speechRecognitionProgress h |}.

(** The cached subtitles are shown. *)
Definition fallback_hit (cached : list SubtitleParser.SubtitleSegment)
    (h : HookState) : HookState :=
  {| subtitles := cached;
     isLoading := false;
     error := error h;
     isSpeechRecognition := isSpeechRecognition h;
     speechRecognitionStatus := VideoPage.completed;
     speechRecognitionProgress := 100 |}.

(** No cache: the page is left to start the transcription. *)
Definition fallback_miss (h : HookState) : HookState :=
  {| subtitles := subtitles h;
     isLoading := false;
     error := Some (js "NO_SUBTITLES");
     isSpeechRecognition := isSpeechRecognition h;
     speechRecognitionStatus := VideoPage.pending;
     speechRecognitionProgress := 0 |}.

(** The [catch] block of [fallbackToSpeechRecognition]. *)
Definition fallback_failed (h : HookState) : HookState :=
  {| subtitles := [];
     isLoading := false;
     error := Some (js "SUBTITLE_FETCH_FAILED");
     isSpeechRecognition := isSpeechRecognition h;
     speechRecognitionStatus := VideoPage.failed;
     speechRecognitionProgress := speechRecognitionProgress h |}.

Definition fallbackToSpeechRecognition (vid : jsstring) (h : HookState)
  : M HookState :=
  let h1 := fallback_started h in
  try_catch
    (let* hasCached := SpeechRecognition.hasCachedResult vid in
     let* cached :=
       (if hasCached : bool then SpeechRecognition.getCachedResult vid
        else ret None) in
     match cached with
     | Some subs => ret (fallback_hit subs h1)
     | None => ret (fallback_miss h1)
     end)
    (fun _ => ret (fallback_failed h1)).

(** The state after the five [set...] calls that open [fetchSubtitles]. *)
Definition fetch_started (h : HookState) : HookState :=
  {| subtitles := subtitles h;
     isLoading := true;
     error := None;
     isSpeechRecognition := false;
     speechRecognitionStatus := VideoPage.idle;
     speechRecognitionProgress := 0 |}.

Definition is_NO_SUBTITLES (code : option jsstring) : bool :=
  match code with
  | Some c => bool_decide (c = js "NO_SUBTITLES")
  | None => false
  end.

(** [fetchSubtitles], given how the native fetch settles. *)
Definition fetchSubtitles (videoId cid : option jsstring)
    (native : NativeOutcome) (h : HookState) : M HookState :=
  match videoId, cid with
  | Some (v :: vid), Some (_ :: _) =>
      let h0 := fetch_started h in
      match native with
      | NativeSubtitles subs =>
          ret {| subtitles := subs;
                 isLoading := false;
                 error := error h0;
                 isSpeechRecognition := isSpeechRecognition h0;
                 speechRecognitionStatus := speechRecognitionStatus h0;
                 speechRecognitionProgress := speechRecognitionProgress h0 |}
      | NativeRejected code =>
          if is_NO_SUBTITLES code then
            fallbackToSpeechRecognition (v :: vid) h0
          else
            ret {| subtitles := [];
                   isLoading := false;
                   error :=
                     Some (or_else code (js "SUBTITLE_FETCH_FAILED"));
                   isSpeechRecognition := isSpeechRecognition h0;
                   speechRecognitionStatus := speechRecognitionStatus h0;
                   speechRecognitionProgress :=
                     speechRecognitionProgress h0 |}
      end
  | _, _ => ret h
  end.

(** useSubtitleSync: [activeSegment?.id || null]. *)
Definition activeSegmentId (currentTime : float)
    (subs : list SubtitleParser.SubtitleSegment) : option jsstring :=
  match SubtitleParser.findActiveSubtitle currentTime subs with
  | Some s =>
      match SubtitleParser.id s with
      | [] => None
      | c :: r => Some (c :: r)
      end
  | None => None
  end.

End UseSubtitles.

(* ===================================================================== *)
(** * hooks/useHighlights.ts: the set of highlighted segments *)
(* ===================================================================== *)

Module UseHighlights.

(** The updater of [toggleHighlight]: a copy of the set with [segmentId]
    removed when present and added otherwise. *)
Definition toggleHighlight (segmentId : jsstring) (prev : gset jsstring)
  : gset jsstring :=
  if bool_decide (segmentId ∈ prev) then prev ∖ {[ segmentId ]}
  else prev ∪ {[ segmentId ]}.

(** [highlights.has(segmentId)] and [highlights.size]. *)
Definition isHighlighted (segmentId : jsstring) (highlights : gset jsstring)
  : bool :=
  bool_decide (segmentId ∈ highlights).

Definition highlightCount (highlights : gset jsstring) : nat :=
  size highlights.

End UseHighlights.

(* ===================================================================== *)
(** * services/storage.ts: the keys of the highlight store *)
(* ===================================================================== *)

Module Storage.

(** [localStorage]: its items, and an oracle saying whether the n-th
    call of [setItem] throws (quota exceeded, access denied, no
    [localStorage] at all). *)
Record LocalStorage : Type := {
  items : gmap jsstring jsstring;
  setItem_fault : nat -> bool;
  setItem_calls : nat
}.

Definition KEY_PREFIX : jsstring := js "highlights:".

Definition test_key : jsstring := js "__storage_test__".

Definition getKey (vid : jsstring) : jsstring := KEY_PREFIX ++ vid.

(** [key.startsWith(prefix)]. *)
Definition startsWith (prefix key : jsstring) : bool :=
  match VideoPage.strip_prefix prefix key with
  | Some _ => true
  | None => false
  end.

Definition removeItem (key : jsstring) (ls : LocalStorage) : LocalStorage :=
  {| items := delete key (items ls);
     setItem_fault := setItem_fault ls;
     setItem_calls := setItem_calls ls |}.

(** [isAvailable()]: a test item is written and removed again; a throw
    of [setItem] is caught and answered [false]. *)
Definition isAvailable (ls : LocalStorage) : bool * LocalStorage :=
  let ls' := {| items := items ls;
                setItem_fault := setItem_fault ls;
                setItem_calls := S (setItem_calls ls) |} in
  if setItem_fault ls (setItem_calls ls) then (false, ls')
  else
    (true,
     removeItem test_key
       {| items := <[test_key := test_key]> (items ls');
          setItem_fault := setItem_fault ls';
          setItem_calls := setItem_calls ls' |}).

Definition clearHighlights (vid : jsstring) (ls : LocalStorage)
  : LocalStorage :=
  let (available, ls1) := isAvailable ls in
  if negb available then ls1
  else removeItem (getKey vid) ls1.

(** The keys [localStorage.key(0)], [localStorage.key(1)], ... *)
Definition keys_of (ls : LocalStorage) : list jsstring :=
  (map_to_list (items ls)).*1.

Definition getAllHighlightKeys (ls : LocalStorage)
  : list jsstring * LocalStorage :=
  let (available, ls1) := isAvailable ls in
  if negb available then ([], ls1)
  else
    (List.filter
       (fun key => match key with
                   | [] => false
                   | _ :: _ => startsWith KEY_PREFIX key
                   end)
       (keys_of ls1),
     ls1).

Definition clearAll (ls : LocalStorage) : LocalStorage :=
  let (available, ls1) := isAvailable ls in
  if negb available then ls1
  else
    let (keys, ls2) := getAllHighlightKeys ls1 in
    fold_left (fun acc key => removeItem key acc) keys ls2.

(** No call of [setItem] throws. *)
Definition writable (ls : LocalStorage) : Prop :=
  forall i, setItem_fault ls i = false.

End Storage.

(* ===================================================================== *)
(** * Vocabulary of the further properties *)
(* ===================================================================== *)

Module Spec2.
Import Runtime.

(** The entries a sweep at time [t] leaves: those with [t < expiresAt]. *)
Definition unexpired_at (t : Z) (m : gmap jsstring SubtitleCache)
  : gmap jsstring SubtitleCache :=
  filter (fun kv => ~ expiresAt kv.2 <= t) m.

(** The open of the database has failed earlier in the session. *)
Definition open_failed (w : World) : Prop :=
  indexedDB_in_window w = true /\ initPromise w = Some false.

(** The four messages [saveSubtitleCache] throws. *)
Definition save_errors : list jsstring :=
  [ js "INDEXEDDB_NOT_AVAILABLE"; js "INDEXEDDB_INIT_FAILED";
    js "INDEXEDDB_NOT_INITIALIZED"; js "CACHE_SAVE_FAILED" ].

(** The store holds an unexpired speech-recognition entry for [vid] with
    segments [segs] at the next clock reading. *)
Definition cached_speech (w : World) (vid : jsstring)
    (segs : list SubtitleParser.SubtitleSegment) : Prop :=
  exists c,
    cache_store w !! vid = Some c
    /\ source c = speech_recognition
    /\ subtitles c = Some segs
    /\ Spec.now w <= expiresAt c.

(** Events of the page: the settlement of a call, and the two resets. *)
Definition is_settlement (ev : VideoPage.Event) : bool :=
  match ev with
  | VideoPage.TranscribeFulfilled | VideoPage.TranscribeRejected _ => true
  | _ => false
  end.

Definition is_reset (ev : VideoPage.Event) : bool :=
  match ev with
  | VideoPage.RetryClicked | VideoPage.VideoIdChanged => true
  | _ => false
  end.

(** The conditions under which the trigger starts a call. *)
Definition ready_to_transcribe (s : VideoPage.PageState) : Prop :=
  (exists vid, VideoPage.video s = Some vid)
  /\ VideoPage.isSpeechRecognition s = true
  /\ VideoPage.subtitleError s = Some VideoPage.NO_SUBTITLES
  /\ VideoPage.speechRecognitionStatus s = VideoPage.pending
  /\ VideoPage.isTranscribing s = false
  /\ VideoPage.isNonRetryableError s = false.

(** The segments are numbered as the parsers number them: the one at
    position [i] has the id ["subtitle-i"]. *)
Definition numbered (l : list SubtitleParser.SubtitleSegment) : Prop :=
  forall i s,
    l !! i = Some s ->
    SubtitleParser.id s = js "subtitle-" ++ index_toString i.

(** The three type tests shared by the parser and the validator. *)
Definition well_typed (item : SubtitleParser.BilibiliSubtitleItem) : Prop :=
  (exists x, SubtitleParser.item_from item = JNumber x)
  /\ (exists y, SubtitleParser.item_to item = JNumber y)
  /\ (exists t, SubtitleParser.item_content item = JString t).

End Spec2.

(* ===================================================================== *)
(** * Further concrete inputs *)
(* ===================================================================== *)

Module Examples2.
Import Runtime Examples.

(** A speech-sourced entry for video [V2]. *)
Definition entry_V2 (expiresAt_ : Z) : SubtitleCache :=
  {| videoId := js "V2";
     subtitles := Some [seg_hi];
     cachedAt := 0;
     expiresAt := expiresAt_;
     source := speech_recognition;
     language := js "zh" |}.

(** A native-sourced entry for video [V1]. *)
Definition native_V1 (expiresAt_ : Z) : SubtitleCache :=
  {| videoId := js "V1";
     subtitles := Some [seg_hi];
     cachedAt := 0;
     expiresAt := expiresAt_;
     source := native;
     language := js "zh" |}.

(** Two entries: [V1] expires at 1000, [V2] at 2000. *)
Definition two_entries : gmap jsstring SubtitleCache :=
  <[ js "V1" := entry_V1 0 1000 ]> {[ js "V2" := entry_V2 2000 ]}.

(** A browser whose first IndexedDB request (the open) is rejected. *)
Definition browser_failing_open (t : Z) : World :=
  {| indexedDB_in_window := true;
     clock := fun _ => t;
     clock_reads := 0;
     idb_fault := fun n => match n with O => true | S _ => false end;
     idb_requests := 0;
     cache_store := {[ js "V1" := entry_V1 0 2000 ]};
     db := false;
     initPromise := None;
     fetch_log := [];
     fetch_reply := fun _ => reply_ok |}.

(** The same once the open has failed. *)
Definition browser_open_failed (t : Z) : World :=
  {| indexedDB_in_window := true;
     clock := fun _ => t;
     clock_reads := 0;
     idb_fault := fun _ => false;
     idb_requests := 1;
     cache_store := {[ js "V1" := entry_V1 0 2000 ]};
     db := false;
     initPromise := Some false;
     fetch_log := [];
     fetch_reply := fun _ => reply_ok |}.

(** A writable [localStorage] holding the highlights of two videos and
    an item of another feature. *)
Definition store_two : Storage.LocalStorage :=
  {| Storage.items :=
       <[ Storage.getKey (js "V1") := js "[]" ]>
         (<[ Storage.getKey (js "V2") := js "[]" ]>
            {[ js "theme" := js "dark" ]});
     Storage.setItem_fault := fun _ => false;
     Storage.setItem_calls := 0 |}.

(** The same store when every write is refused. *)
Definition store_refusing : Storage.LocalStorage :=
  {| Storage.items := Storage.items store_two;
     Storage.setItem_fault := fun _ => true;
     Storage.setItem_calls := 0 |}.

End Examples2.

(* ===================================================================== *)
(** * Proof automation *)
(* ===================================================================== *)

(** Case analysis on every [match] and [if] of an unfolded operation. *)
Ltac cases :=
repeat (simpl in *;
        match goal with
        | |- context [match ?x with _ => _ end] =>
            destruct x eqn:?
        | H : context [match ?x with _ => _ end] |- _ =>
            destruct x eqn:?
        end);
simpl in *.

(* ===================================================================== *)
(** * Properties of the subtitle parser and of the active-segment lookup *)
(* ===================================================================== *)

Section SubtitleParserFacts.
Import SubtitleParser Spec.

Lemma active_covers t s : active t s = true <-> covers t s.
Proof. unfold active, covers. rewrite andb_true_iff. reflexivity. Qed.

Lemma active_false_covers t s : active t s = false <-> ~ covers t s.
Proof.
  rewrite <- active_covers. destruct (active t s); split; congruence.
Qed.

Lemma find_first_covering t l s :
  List.find (active t) l = Some s <-> first_covering t l s.
Proof.
  induction l as [|x l IH]; simpl.
  - split; [discriminate|].
    intros (pre & post & E & _). destruct pre; discriminate.
  - destruct (active t x) eqn:Hx.
    + split.
      * intros [= ->]. exists [], l.
        split; [reflexivity|]. split; [now apply active_covers | constructor].
      * intros (pre & post & E & Hs & Hpre).
        destruct pre as [|y pre]; simpl in E; injection E as -> ->.
        -- reflexivity.
        -- inversion Hpre as [|? ? Hy _]; subst.
           apply active_covers in Hx. contradiction.
    + rewrite IH. split.
      * intros (pre & post & -> & Hs & Hpre).
        exists (x :: pre), post.
        split; [reflexivity|]. split; [exact Hs|].
        constructor; [now apply active_false_covers | exact Hpre].
      * intros (pre & post & E & Hs & Hpre).
        destruct pre as [|y pre]; simpl in E; injection E as -> ->.
        -- apply active_covers in Hs. congruence.
        -- inversion Hpre; subst. exists pre, post.
           split; [reflexivity|]. split; assumption.
Qed.

Lemma find_none_covering t l :
  List.find (active t) l = None <-> Forall (fun x => ~ covers t x) l.
Proof.
  induction l as [|x l IH]; simpl.
  - split; [constructor | reflexivity].
  - destruct (active t x) eqn:Hx.
    + split; [discriminate|]. intros H. inversion H; subst.
      apply active_covers in Hx. contradiction.
    + rewrite IH. split.
      * intros H. constructor; [now apply active_false_covers | exact H].
      * intros H. now inversion H.
Qed.

(** A float that is below something is not NaN, hence below itself. *)
Lemma SFleb_refl_of_leb x y : SFleb x y = true -> SFleb x x = true.
Proof.
  unfold SFleb. destruct x as [s|s| |s m e]; simpl.
  - reflexivity.
  - destruct s; reflexivity.
  - discriminate.
  - intros _. destruct s; rewrite Z.compare_refl;
      change (Pos.compare_cont Eq m m) with (Pos.compare m m);
      rewrite Pos.compare_refl; reflexivity.
Qed.

Lemma leb_refl_of_leb (x y : float) :
  (x <=? y)%float = true -> (x <=? x)%float = true.
Proof. rewrite !leb_spec. apply SFleb_refl_of_leb. Qed.

Lemma first_covering_earliest t l s s' :
  sorted_by_startTime l -> first_covering t l s ->
  In s' l -> covers t s' ->
  (startTime s <=? startTime s')%float = true.
Proof.
  intros Hsorted (pre & post & -> & Hs & Hpre) Hin Hs'.
  apply in_app_or in Hin. destruct Hin as [Hin|[<-|Hin]].
  - rewrite Forall_forall in Hpre. exfalso. apply (Hpre s'); [|exact Hs'].
    apply list_elem_of_In. exact Hin.
  - destruct Hs as [Hs _]. exact (leb_refl_of_leb _ _ Hs).
  - induction pre as [|p pre IH]; simpl in Hsorted.
    + apply StronglySorted_inv in Hsorted. destruct Hsorted as [_ Hall].
      rewrite List.Forall_forall in Hall. now apply Hall.
    + apply StronglySorted_inv in Hsorted. destruct Hsorted as [Hsorted _].
      inversion Hpre; subst. now apply IH.
Qed.

End SubtitleParserFacts.

Section SubtitleParserTheorems.
Import SubtitleParser Spec.

(** C1.  For a segment list sorted ascending by [startTime] and any time
    [t], [findActiveSubtitle t l] is the first segment of [l], in list
    order, with [startTime <= t < endTime], and [null] exactly when no
    segment satisfies this; the answer is determined by [(t, l)] alone
    (two first matches are equal), and on a sorted list it starts no
    later than any other segment that covers [t]. *)
Theorem findActiveSubtitle_first_match (t : float)
    (l : list SubtitleSegment) :
  sorted_by_startTime l ->
  (forall s, findActiveSubtitle t l = Some s <-> first_covering t l s)
  /\ (findActiveSubtitle t l = None <-> Forall (fun x => ~ covers t x) l)
  /\ (forall s1 s2,
        first_covering t l s1 -> first_covering t l s2 -> s1 = s2)
  /\ (forall s s',
        findActiveSubtitle t l = Some s -> In s' l -> covers t s' ->
        (startTime s <=? startTime s')%float = true).
Proof.
  intros Hsorted. unfold findActiveSubtitle.
  split; [intros s; apply find_first_covering|].
  split; [apply find_none_covering|].
  split.
  - intros s1 s2 H1 H2.
    apply find_first_covering in H1, H2. congruence.
  - intros s s' Hfind Hin Hs'.
    apply find_first_covering in Hfind.
    eapply first_covering_earliest; eassumption.
Qed.

Lemma findActiveSubtitle_first_match_witness :
  sorted_by_startTime
    [Examples.seg_hi; Examples.seg_there; Examples.seg_overlap]
  /\ findActiveSubtitle 8
       [Examples.seg_hi; Examples.seg_there; Examples.seg_overlap]
     = Some Examples.seg_there
  /\ findActiveSubtitle 12
       [Examples.seg_hi; Examples.seg_there; Examples.seg_overlap]
     = None.
Proof.
  assert (Hsorted : sorted_by_startTime
            [Examples.seg_hi; Examples.seg_there; Examples.seg_overlap]).
  { repeat constructor. }
  split; [exact Hsorted|].
  destruct (findActiveSubtitle_first_match 8 _ Hsorted) as (Hsome & _).
  destruct (findActiveSubtitle_first_match 12 _ Hsorted) as (_ & Hnone & _).
  split.
  - apply Hsome. exists [Examples.seg_hi], [Examples.seg_overlap].
    split; [reflexivity|]. split; [split; reflexivity|].
    constructor; [|constructor]. intros [_ Hlt]. discriminate Hlt.
  - apply Hnone. repeat constructor; intros [Hle Hlt]; discriminate Hlt.
Defined.

Lemma keep_true_inv item :
  keep item = true ->
  exists x y s,
    item = {| item_from := JNumber x; item_to := JNumber y;
              item_content := JString s |}
    /\ (x <? 0)%float = false /\ (y <=? x)%float = false /\ trim s <> [].
Proof.
  destruct item as [f t c]. unfold keep; simpl.
  destruct f as [| |b|x|s|]; simpl; try discriminate.
  destruct t as [| |b|y|s|]; simpl; try discriminate.
  destruct c as [| |b|z|s|]; simpl; try discriminate.
  destruct (x <? 0)%float eqn:Hneg; simpl; [discriminate|].
  destruct (y <=? x)%float eqn:Hle; simpl; [discriminate|].
  destruct (trim s) eqn:Htrim; [discriminate|].
  intros _. exists x, y, s. rewrite Htrim.
  split; [reflexivity|]. split; [exact Hneg|].
  split; [exact Hle | discriminate].
Qed.

Lemma keep_false_violates item : keep item = false <-> violates item.
Proof.
  split.
  - intros Hk. destruct item as [f t c]. unfold violates; simpl.
    destruct f as [| |b|x|s|];
      try solve [left; intros [? [=]]].
    destruct t as [| |b|y|s|];
      try solve [right; left; intros [? [=]]].
    destruct (y <=? x)%float eqn:Hle.
    { right; right; left. exists x, y. auto. }
    destruct (x <? 0)%float eqn:Hneg.
    { right; right; right; left. exists x. auto. }
    right; right; right; right.
    intros (s & -> & Hs). unfold keep in Hk; simpl in Hk.
    rewrite Hle, Hneg in Hk. simpl in Hk.
    destruct (trim s); [contradiction | discriminate].
  - intros Hv. destruct (keep item) eqn:Hk; [|reflexivity]. exfalso.
    apply keep_true_inv in Hk.
    destruct Hk as (x & y & s & -> & Hneg & Hle & Hs).
    destruct Hv as [H|[H|[H|[H|H]]]]; simpl in H.
    + apply H. now exists x.
    + apply H. now exists y.
    + destruct H as (x' & y' & [= <-] & [= <-] & H). simpl in *. congruence.
    + destruct H as (x' & [= <-] & H). congruence.
    + apply H. now exists s.
Qed.

(** C6.  [parseSubtitles] drops exactly the items that break a rule
    ([from] or [to] not of type number, [to <= from], [from < 0], no text
    left after trimming), that is, it keeps exactly the items whose [from]
    and [to] are numbers with neither [from < 0] nor [to <= from] and whose
    content is a string with a non-empty trim; the items kept come out in
    input order, the i-th of
    them as the segment with [index = i], [id = "subtitle-i"], times
    [from]/[to] and the trimmed content; the function is total, a
    non-array input gives the empty list, and the three-item scenario
    gives the single segment ["a"] with index 0. *)
Theorem parseSubtitles_filters_and_numbers (vid : jsstring) :
  (forall item, keep item = false <-> violates item)
  /\ (forall item,
        keep item = true <->
        exists x y s,
          item = {| item_from := JNumber x; item_to := JNumber y;
                    item_content := JString s |}
          /\ (x <? 0)%float = false /\ (y <=? x)%float = false
          /\ trim s <> [])
  /\ (forall items,
        length (parseSubtitles (RawArray items) vid)
        = length (List.filter keep items)
        /\ forall i item,
             List.filter keep items !! i = Some item ->
             exists x y s,
               item = {| item_from := JNumber x; item_to := JNumber y;
                         item_content := JString s |}
               /\ parseSubtitles (RawArray items) vid !! i
                  = Some {| id := js "subtitle-" ++ index_toString i;
                            videoId := vid;
                            startTime := x;
                            endTime := y;
                            text := trim s;
                            index := i;
                            language := None |})
  /\ (forall v, parseSubtitles (RawOther v) vid = [])
  /\ parseSubtitles scenario_raw vid
     = [ {| id := js "subtitle-0"; videoId := vid;
            startTime := 0; endTime := 2; text := js "a";
            index := 0; language := None |} ].
Proof.
  split; [exact keep_false_violates|].
  split.
  { intros item. split; [apply keep_true_inv|].
    intros (x & y & s & -> & Hneg & Hle & Hs). unfold keep; simpl.
    rewrite Hneg, Hle. simpl. destruct (trim s); [contradiction|reflexivity]. }
  split; [|split; [reflexivity | reflexivity]].
  intros items. simpl. split; [apply length_imap|].
  intros i item Hi.
  assert (Hk : keep item = true).
  { apply list_elem_of_lookup_2, list_elem_of_In, filter_In in Hi.
    apply Hi. }
  apply keep_true_inv in Hk.
  destruct Hk as (x & y & s & -> & _).
  exists x, y, s. split; [reflexivity|].
  rewrite list_lookup_imap, Hi. reflexivity.
Qed.

End SubtitleParserTheorems.

(* ===================================================================== *)
(** * Properties of the cache *)
(* ===================================================================== *)

Section CacheFacts.
Import Runtime IndexedDBStorage Spec.

Lemma initialize_healthy w :
  healthy w ->
  exists w',
    initialize w = (Normal tt, w')
    /\ healthy w' /\ db w' = true /\ same_env w w'
    /\ clock_reads w' = clock_reads w
    /\ cache_store w' = cache_store w.
Proof.
  intros (Hwin & Hf & Hready). unfold initialize.
  destruct Hready as [[Hdb Hp]|[Hdb Hp]]; rewrite Hp.
  - unfold idb_request. rewrite Hf.
    eexists. split; [reflexivity|].
    repeat split; simpl; auto. right. auto.
  - exists w. repeat split; auto. right; auto.
Qed.

Lemma saveSubtitleCache_healthy w c :
  healthy w ->
  exists w',
    saveSubtitleCache c w = (Normal tt, w')
    /\ healthy w' /\ same_env w w'
    /\ clock_reads w' = S (S (clock_reads w))
    /\ cache_store w' = <[videoId c := stamped w c]> (cache_store w).
Proof.
  intros H.
  destruct (initialize_healthy w H)
    as (w1 & Hinit & H1 & Hdb & Henv & Hreads & Hstore).
  destruct H as (Hwin & _).
  unfold saveSubtitleCache, bind, isAvailable. rewrite Hwin. simpl.
  rewrite Hinit. unfold this_db. rewrite Hdb. simpl.
  unfold try_catch, bind, Date_now, db_put, bind, idb_request, get_store,
    put_store. simpl.
  destruct H1 as (Hwin1 & Hf1 & Hready1). rewrite Hf1.
  eexists. split; [reflexivity|].
  destruct Henv as (E1 & E2 & E3 & E4 & E5).
  unfold healthy, no_faults, service_ready, same_env, stamped, now,
    now_next in *; simpl.
  rewrite E2, Hreads, Hstore. intuition.
Qed.

Lemma loadSubtitleCache_healthy w vid :
  healthy w ->
  exists w',
    healthy w' /\ same_env w w'
    /\ match cache_store w !! vid with
       | None =>
           loadSubtitleCache vid w = (Normal None, w')
           /\ cache_store w' = cache_store w
           /\ clock_reads w' = clock_reads w
       | Some c =>
           clock_reads w' = S (clock_reads w)
           /\ if expiresAt c <? now w
              then loadSubtitleCache vid w = (Normal None, w')
                   /\ cache_store w' = delete vid (cache_store w)
              else loadSubtitleCache vid w = (Normal (Some c), w')
                   /\ cache_store w' = cache_store w
       end.
Proof.
  intros H.
  destruct (initialize_healthy w H)
    as (w1 & Hinit & H1 & Hdb & Henv & Hreads & Hstore).
  destruct H as (Hwin & _).
  unfold loadSubtitleCache, bind, isAvailable. rewrite Hwin. simpl.
  rewrite Hinit. unfold this_db. rewrite Hdb. simpl.
  unfold try_catch, bind, Date_now, db_get, db_delete, bind, idb_request,
    get_store, put_store, ret. simpl.
  destruct H1 as (Hwin1 & Hf1 & Hready1). rewrite Hf1. simpl.
  rewrite Hstore.
  destruct Henv as (E1 & E2 & E3 & E4 & E5).
  unfold now. rewrite <- E2, <- Hreads.
  destruct (cache_store w !! vid) as [c|] eqn:Hc.
  - simpl. destruct (expiresAt c <? clock w1 (clock_reads w1)) eqn:Hexp.
    + simpl. rewrite Hf1. eexists. split; [|split; [|split; [|split]]].
      4: reflexivity.
      all: unfold healthy, no_faults, service_ready, same_env in *; simpl;
        rewrite ?Hstore; intuition.
    + eexists. split; [|split; [|split; [|split]]].
      4: reflexivity.
      all: unfold healthy, no_faults, service_ready, same_env in *; simpl;
        rewrite ?Hstore; intuition.
  - simpl. eexists. split; [|split; [|split; [|split]]].
    3: reflexivity.
    all: unfold healthy, no_faults, service_ready, same_env in *; simpl;
      rewrite ?Hstore; intuition.
Qed.

(** Whatever the state of the store, an entry that is returned is the
    stored one and has not expired at the time of the read. *)
Lemma loadSubtitleCache_Some_inv w vid c w' :
  loadSubtitleCache vid w = (Normal (Some c), w') ->
  cache_store w !! vid = Some c
  /\ now w <= expiresAt c
  /\ cache_store w' = cache_store w.
Proof.
  unfold loadSubtitleCache, bind, isAvailable, initialize, this_db,
    try_catch, bind, Date_now, db_get, db_delete, bind, idb_request,
    get_store, put_store, ret, now.
  intros H. cases; simplify_eq; simpl in *.
  all: split; [assumption|]; split; [|reflexivity].
  all: apply Z.ltb_ge; assumption.
Qed.

Lemma getCacheStats_healthy w :
  healthy w ->
  fst (getCacheStats w)
  = Normal {| totalEntries := size (cache_store w);
              expiredEntries :=
                length (keys_upTo (now w) (cache_store w)) |}.
Proof.
  intros H.
  destruct (initialize_healthy w H)
    as (w1 & Hinit & H1 & Hdb & Henv & Hreads & Hstore).
  destruct H as (Hwin & _).
  unfold getCacheStats, bind, isAvailable. rewrite Hwin. simpl.
  rewrite Hinit. unfold this_db. rewrite Hdb. simpl.
  unfold try_catch, bind, Date_now, bind, idb_request, get_store, ret.
  simpl. destruct H1 as (Hwin1 & Hf1 & Hready1).
  repeat (rewrite Hf1; simpl).
  destruct Henv as (E1 & E2 & E3 & E4 & E5).
  unfold now. rewrite Hstore, E2, Hreads. reflexivity.
Qed.

Lemma try_catch_returns {A} (body : M A) (handler : JsError -> M A) w :
  (forall e u, exists a, fst (handler e u) = Normal a) ->
  exists a, fst (try_catch body handler w) = Normal a.
Proof.
  intros Hh. unfold try_catch. destruct (body w) as [[a|e] u]; simpl.
  - exists a. reflexivity.
  - apply Hh.
Qed.

(** When [openDB] fails, [initialize] rejects, and the rejection leaves
    [loadSubtitleCache] through the [await] that precedes its [try]. *)
Lemma loadSubtitleCache_rethrows_failed_open w vid :
  indexedDB_in_window w = true ->
  initPromise w = None ->
  idb_fault w (idb_requests w) = true ->
  fst (loadSubtitleCache vid w) = Throw (Error (js "INDEXEDDB_INIT_FAILED")).
Proof.
  intros Hwin Hp Hfault.
  unfold loadSubtitleCache, bind, isAvailable, initialize, idb_request.
  rewrite Hwin. simpl. rewrite Hp, Hfault. reflexivity.
Qed.

(** Once the database is open (or when IndexedDB is missing), a rejected
    request never leaves the five operations that catch. *)
Lemma catching_operations_return w vid :
  indexedDB_in_window w = false
  \/ (exists u, initialize w = (Normal tt, u)) ->
  returns (loadSubtitleCache vid) w
  /\ returns (clearVideoCache vid) w
  /\ returns clearAllCache w
  /\ returns clearExpiredCache w
  /\ returns getCacheStats w.
Proof.
  intros [Hwin|(u & Hinit)]; unfold returns.
  - unfold loadSubtitleCache, clearVideoCache, clearAllCache,
      clearExpiredCache, getCacheStats, bind, isAvailable.
    rewrite Hwin. simpl. repeat split; eexists; reflexivity.
  - unfold loadSubtitleCache, clearVideoCache, clearAllCache,
      clearExpiredCache, getCacheStats, bind, isAvailable, this_db.
    destruct (indexedDB_in_window w); simpl;
      [|repeat split; eexists; reflexivity].
    rewrite Hinit.
    destruct (db u); simpl; [|repeat split; eexists; reflexivity].
    repeat split; apply try_catch_returns; intros; eexists; reflexivity.
Qed.

End CacheFacts.

Section CacheTheorems.
Import Runtime IndexedDBStorage Spec Examples.

(** C3, as stated, fails at the boundary: an entry whose [expiresAt]
    equals the current time is returned and kept, because the read path
    tests [cache.expiresAt < Date.now()]. *)
Lemma loadSubtitleCache_keeps_entry_expiring_now :
  ~ evicts_at_or_before_now.
Proof.
  intros Hclaim.
  pose (w := browser 1000 {[ js "V1" := entry_V1 0 1000 ]}).
  destruct (Hclaim w (js "V1") (entry_V1 0 1000)) as [Hnone _].
  - split; [reflexivity|]. split; [intros i; reflexivity|].
    left. split; reflexivity.
  - vm_compute. reflexivity.
  - vm_compute. discriminate.
  - vm_compute in Hnone. discriminate.
Qed.

(** C3, amended.  For a stored entry with [expiresAt < now] (strictly),
    [loadSubtitleCache] returns [null] and deletes the entry, after
    which [getCacheStats().totalEntries] is one less than before; and in
    every state of the store an entry that is returned has
    [now <= expiresAt], so an entry expired in that sense is never
    returned. *)
Theorem loadSubtitleCache_evicts_expired w vid c :
  healthy w ->
  cache_store w !! vid = Some c ->
  expiresAt c < now w ->
  (exists w' st st',
      loadSubtitleCache vid w = (Normal None, w')
      /\ cache_store w' = delete vid (cache_store w)
      /\ cache_store w' !! vid = None
      /\ fst (getCacheStats w) = Normal st
      /\ fst (getCacheStats w') = Normal st'
      /\ totalEntries st = S (totalEntries st'))
  /\ (forall v u e u',
        loadSubtitleCache v u = (Normal (Some e), u') ->
        cache_store u !! v = Some e /\ now u <= expiresAt e).
Proof.
  intros H Hc Hexp. split.
  - destruct (loadSubtitleCache_healthy w vid H)
      as (w' & H' & _ & Hload).
    rewrite Hc in Hload. destruct Hload as [_ Hload].
    apply Z.ltb_lt in Hexp. rewrite Hexp in Hload.
    destruct Hload as [Hload Hstore].
    exists w'. eexists. eexists.
    split; [exact Hload|]. split; [exact Hstore|].
    split; [rewrite Hstore; apply lookup_delete_eq|].
    split; [apply getCacheStats_healthy; exact H|].
    split; [apply getCacheStats_healthy; exact H'|].
    simpl. rewrite Hstore, map_size_delete, Hc.
    assert (size (cache_store w) <> 0%nat).
    { apply map_size_ne_0_lookup. eauto. }
    destruct (size (cache_store w)); [contradiction | reflexivity].
  - intros v u e u' Hload.
    apply loadSubtitleCache_Some_inv in Hload. tauto.
Qed.

Lemma loadSubtitleCache_evicts_expired_witness :
  exists w' : World,
    loadSubtitleCache (js "V1")
      (browser 1001 {[ js "V1" := entry_V1 0 1000 ]})
    = (Normal None, w')
    /\ cache_store w' !! js "V1" = None.
Proof.
  destruct (loadSubtitleCache_evicts_expired
              (browser 1001 {[ js "V1" := entry_V1 0 1000 ]})
              (js "V1") (entry_V1 0 1000))
    as [(w' & st & st' & Hload & _ & Hgone & _) _].
  - split; [reflexivity|]. split; [intros i; reflexivity|].
    left. split; reflexivity.
  - vm_compute. reflexivity.
  - vm_compute. reflexivity.
  - exists w'. split; assumption.
Defined.

(** C4, as stated, fails for [save]: without IndexedDB,
    [saveSubtitleCache] throws [Error('INDEXEDDB_NOT_AVAILABLE')]. *)
Lemma saveSubtitleCache_throws_without_indexedDB :
  ~ all_operations_degrade.
Proof.
  intros Hclaim.
  destruct (Hclaim (browser_without_indexedDB 0) (js "V1")
              (entry_V1 0 0) eq_refl) as [[a Hsave] _].
  vm_compute in Hsave. discriminate.
Qed.

(** C4, amended.  When IndexedDB is not available ([isAvailable()] is
    false), load returns [null], remove and clear do nothing, the sweep
    returns 0 and the statistics are zero, all without throwing and
    without touching any state; [saveSubtitleCache] instead throws
    [Error('INDEXEDDB_NOT_AVAILABLE')]. *)
Theorem cache_operations_without_indexedDB w vid c :
  indexedDB_in_window w = false ->
  loadSubtitleCache vid w = (Normal None, w)
  /\ clearVideoCache vid w = (Normal tt, w)
  /\ clearAllCache w = (Normal tt, w)
  /\ clearExpiredCache w = (Normal 0%nat, w)
  /\ getCacheStats w
     = (Normal {| totalEntries := 0; expiredEntries := 0 |}, w)
  /\ saveSubtitleCache c w
     = (Throw (Error (js "INDEXEDDB_NOT_AVAILABLE")), w).
Proof.
  intros Hwin.
  unfold loadSubtitleCache, clearVideoCache, clearAllCache,
    clearExpiredCache, getCacheStats, saveSubtitleCache, bind, isAvailable.
  rewrite Hwin. simpl. repeat split.
Qed.

Lemma cache_operations_without_indexedDB_witness :
  loadSubtitleCache (js "V1") (browser_without_indexedDB 0)
  = (Normal None, browser_without_indexedDB 0)
  /\ saveSubtitleCache (entry_V1 0 0) (browser_without_indexedDB 0)
     = (Throw (Error (js "INDEXEDDB_NOT_AVAILABLE")),
        browser_without_indexedDB 0).
Proof.
  destruct (cache_operations_without_indexedDB
              (browser_without_indexedDB 0) (js "V1") (entry_V1 0 0)
              eq_refl) as (Hload & _ & _ & _ & _ & Hsave).
  split; assumption.
Defined.

(** C8.  With a working store, [saveSubtitleCache] replaces whatever
    was stored under the entry's [videoId] by the entry stamped with
    [cachedAt = Date.now()] and [expiresAt = Date.now() + CACHE_TTL]
    (30 days), whatever stamps the caller passed; and a
    [loadSubtitleCache] for the same [videoId] right after it, at a time
    before that [expiresAt], returns the stamped entry, hence the same
    segments. *)
Theorem save_then_load_roundtrip w c :
  healthy w ->
  CACHE_TTL = 2592000000
  /\ cachedAt (stamped w c) = now w
  /\ expiresAt (stamped w c) = now_next w + CACHE_TTL
  /\ exists w1,
       saveSubtitleCache c w = (Normal tt, w1)
       /\ cache_store w1 = <[videoId c := stamped w c]> (cache_store w)
       /\ (now w1 < expiresAt (stamped w c) ->
           exists w2,
             loadSubtitleCache (videoId c) w1
             = (Normal (Some (stamped w c)), w2)
             /\ subtitles (stamped w c) = subtitles c
             /\ cache_store w2 = cache_store w1).
Proof.
  intros H. split; [reflexivity|]. split; [reflexivity|].
  split; [reflexivity|].
  destruct (saveSubtitleCache_healthy w c H)
    as (w1 & Hsave & H1 & Henv & Hreads & Hstore).
  exists w1. split; [exact Hsave|]. split; [exact Hstore|].
  intros Hfresh.
  destruct (loadSubtitleCache_healthy w1 (videoId c) H1)
    as (w2 & _ & _ & Hload).
  rewrite Hstore, lookup_insert_eq in Hload.
  destruct Hload as [_ Hload].
  assert (Hnot : (expiresAt (stamped w c) <? now w1) = false)
    by (apply Z.ltb_ge; lia).
  rewrite Hnot in Hload. destruct Hload as [Hload Hstore2].
  exists w2. split; [exact Hload|]. split; [reflexivity|].
  rewrite Hstore2, Hstore. reflexivity.
Qed.

Lemma save_then_load_roundtrip_witness :
  exists w1 w2,
    saveSubtitleCache (entry_V1 7 8) (browser 1000 ∅) = (Normal tt, w1)
    /\ loadSubtitleCache (js "V1") w1
       = (Normal (Some (entry_V1 1000 (1000 + CACHE_TTL))), w2).
Proof.
  destruct (save_then_load_roundtrip (browser 1000 ∅) (entry_V1 7 8))
    as (_ & _ & _ & w1 & Hsave & Hstore & Hload).
  - split; [reflexivity|]. split; [intros i; reflexivity|].
    left. split; reflexivity.
  - destruct Hload as (w2 & Hload & _).
    + pose proof (f_equal snd Hsave) as Hw1. simpl in Hw1. subst w1.
      vm_compute. reflexivity.
    + exists w1, w2. split; assumption.
Defined.

End CacheTheorems.

(* ===================================================================== *)
(** * Properties of the transcription service *)
(* ===================================================================== *)

Section SpeechRecognitionFacts.
Import Runtime IndexedDBStorage SpeechRecognition Spec.

Lemma getCachedResult_healthy w vid :
  healthy w ->
  exists w',
    healthy w' /\ same_env w w'
    /\ match cache_store w !! vid with
       | None =>
           getCachedResult vid w = (Normal None, w')
           /\ cache_store w' = cache_store w
       | Some c =>
           if expiresAt c <? now w
           then getCachedResult vid w = (Normal None, w')
           else getCachedResult vid w
                = (Normal (if Source_eqb (source c) speech_recognition
                           then subtitles c else None), w')
                /\ cache_store w' = cache_store w
       end.
Proof.
  intros H.
  destruct (loadSubtitleCache_healthy w vid H) as (w' & H' & Henv & Hload).
  exists w'. split; [exact H'|]. split; [exact Henv|].
  unfold getCachedResult, try_catch, bind.
  destruct (cache_store w !! vid) as [c|].
  - destruct Hload as [_ Hload].
    destruct (expiresAt c <? now w).
    + destruct Hload as [-> _]. reflexivity.
    + destruct Hload as [-> Hs]. split; [|exact Hs].
      destruct (Source_eqb (source c) speech_recognition); reflexivity.
  - destruct Hload as (-> & Hs & _). split; [reflexivity | exact Hs].
Qed.

(** [getCachedResult] never throws and never touches the network. *)
Lemma getCachedResult_total vid w :
  exists r w',
    getCachedResult vid w = (Normal r, w')
    /\ fetch_log w' = fetch_log w /\ fetch_reply w' = fetch_reply w.
Proof.
  unfold getCachedResult, loadSubtitleCache, bind, isAvailable, initialize,
    this_db, try_catch, bind, Date_now, db_get, db_delete, bind,
    idb_request, get_store, put_store, ret.
  cases; simplify_eq; simpl in *; eauto.
Qed.

(** [cacheResult] never throws and never touches the network. *)
Lemma cacheResult_total vid subs lang w :
  exists w',
    cacheResult vid subs lang w = (Normal tt, w')
    /\ fetch_log w' = fetch_log w /\ fetch_reply w' = fetch_reply w.
Proof.
  unfold cacheResult, cacheResult_try, saveSubtitleCache, bind,
    isAvailable, initialize, this_db, try_catch, bind, Date_now, db_put,
    bind, idb_request, get_store, put_store, ret, throw.
  cases; simplify_eq; simpl in *; eauto.
Qed.

Lemma transcribe_start_miss w o :
  healthy w ->
  cache_store w !! opt_videoId o = None ->
  exists w',
    transcribe_start o w
    = (Normal (inr {| pend_videoId := opt_videoId o;
                      pend_language := default zh (opt_language o);
                      pend_request := length (fetch_log w) |}), w')
    /\ healthy w'
    /\ cache_store w' = cache_store w
    /\ fetch_log w' = fetch_log w ++ [request_of o].
Proof.
  intros H Hc. unfold transcribe_start, bind.
  destruct (negb (default false (opt_forceRefresh o))).
  - destruct (getCachedResult_healthy w (opt_videoId o) H)
      as (w' & H' & Henv & Hget).
    rewrite Hc in Hget. destruct Hget as [-> Hstore].
    destruct Henv as (E1 & E2 & E3 & E4 & E5).
    unfold fetch_send, ret. simpl. rewrite E4.
    eexists. split; [reflexivity|].
    unfold healthy, no_faults, service_ready in *. simpl. intuition.
  - unfold fetch_send, ret. simpl. eexists. split; [reflexivity|].
    unfold healthy, no_faults, service_ready in *. simpl. intuition.
Qed.

Lemma transcribe_finish_ok p resp data u :
  ok resp = true ->
  resp_body resp = BodyJson data ->
  exists u',
    transcribe_finish p (FetchResponse resp) u
    = (Normal {| res_videoId := pend_videoId p;
                 res_subtitles := body_subtitles data;
                 res_source := speech_recognition;
                 res_language := pend_language p;
                 res_cached := false |}, u').
Proof.
  intros Hok Hbody. unfold transcribe_finish. rewrite Hok. simpl.
  unfold response_json. rewrite Hbody.
  unfold bind at 1. unfold ret at 1. unfold bind at 1.
  destruct (cacheResult_total (pend_videoId p) (body_subtitles data)
              (pend_language p) u) as (u' & -> & _).
  exists u'. reflexivity.
Qed.

(** The two phases are the function itself. *)
Lemma transcribe_start_phases o :
  transcribe_start o
  = (let* cached := transcribe_lookup o in transcribe_request o cached)%js.
Proof. reflexivity. Qed.

Lemma advance_cache_read w o :
  healthy w ->
  cache_store w !! opt_videoId o = None ->
  exists w',
    advance o AtCacheRead w = (Normal (AtRequest None), w')
    /\ healthy w'
    /\ cache_store w' = cache_store w
    /\ fetch_log w' = fetch_log w.
Proof.
  intros H Hc. unfold advance, transcribe_lookup, bind.
  destruct (negb (default false (opt_forceRefresh o))).
  - destruct (getCachedResult_healthy w (opt_videoId o) H)
      as (w' & H' & Henv & Hget).
    rewrite Hc in Hget. destruct Hget as [-> Hstore].
    exists w'. split; [reflexivity|]. split; [exact H'|].
    split; [exact Hstore | apply Henv].
  - exists w. repeat split; solve [reflexivity | apply H].
Qed.

Lemma advance_request w o :
  healthy w ->
  exists w',
    advance o (AtRequest None) w
    = (Normal (AtFetch {| pend_videoId := opt_videoId o;
                          pend_language := default zh (opt_language o);
                          pend_request := length (fetch_log w) |}), w')
    /\ healthy w'
    /\ cache_store w' = cache_store w
    /\ fetch_log w' = fetch_log w ++ [request_of o].
Proof.
  intros H. eexists. split; [reflexivity|].
  split; [exact H|]. split; reflexivity.
Qed.

Lemma steps_of_total sched :
  (steps_of false sched + steps_of true sched)%nat = length sched.
Proof.
  unfold steps_of. induction sched as [|[|] sched IH]; simpl in *; lia.
Qed.

End SpeechRecognitionFacts.

Section SpeechRecognitionTheorems.
Import Runtime IndexedDBStorage SpeechRecognition Spec Examples.

(** C5.  With a working store: when the cache holds an unexpired
    speech-sourced entry for the video and [forceRefresh] is not set,
    [transcribeVideo] returns that entry's segments with [cached = true]
    and sends no request; when [forceRefresh] is true the cache is not
    consulted, the request is sent, and a successful reply is returned
    with [cached = false] and stored in the cache under the video's id. *)
Theorem transcribeVideo_cache_hit_and_refresh w o :
  healthy w ->
  (forall c segs,
      cache_store w !! opt_videoId o = Some c ->
      source c = speech_recognition ->
      subtitles c = Some segs ->
      now w < expiresAt c ->
      opt_forceRefresh o <> Some true ->
      exists w',
        transcribeVideo o w = (Normal (result_of o (Some segs) true), w')
        /\ fetch_log w' = fetch_log w)
  /\ (opt_forceRefresh o = Some true ->
      forall resp data,
        fetch_reply w (length (fetch_log w)) = FetchResponse resp ->
        ok resp = true ->
        resp_body resp = BodyJson data ->
        exists w',
          transcribeVideo o w
          = (Normal (result_of o (body_subtitles data) false), w')
          /\ snd (transcribe_start o w)
             = with_fetch_log (fetch_log w ++ [request_of o]) w
          /\ fetch_log w' = fetch_log w ++ [request_of o]
          /\ cache_store w'
             = <[opt_videoId o :=
                   stamped (at_save w)
                     (entry_of w (opt_videoId o) (body_subtitles data)
                        (default zh (opt_language o)))]> (cache_store w)).
Proof.
  intros H. split.
  - intros c segs Hc Hsrc Hsubs Hvalid Hforce.
    destruct (getCachedResult_healthy w (opt_videoId o) H)
      as (w' & _ & Henv & Hget).
    rewrite Hc in Hget.
    assert (Hnot : (expiresAt c <? now w) = false)
      by (apply Z.ltb_ge; lia).
    rewrite Hnot, Hsrc, Hsubs in Hget. simpl in Hget.
    destruct Hget as [Hget _].
    exists w'. split; [|apply Henv].
    unfold transcribeVideo, transcribe_start, bind.
    assert (Hf : default false (opt_forceRefresh o) = false).
    { destruct (opt_forceRefresh o) as [[|]|]; simpl; congruence. }
    rewrite Hf. simpl. rewrite Hget. reflexivity.
  - intros Hforce resp data Hreply Hok Hbody.
    unfold transcribeVideo, transcribe_start, bind.
    rewrite Hforce. simpl.
    unfold fetch_settle. simpl. rewrite Hreply.
    unfold transcribe_finish. rewrite Hok. simpl.
    unfold response_json. rewrite Hbody.
    unfold bind at 1. unfold ret at 1.
    unfold bind at 1. unfold cacheResult, cacheResult_try, try_catch.
    unfold bind at 1. unfold Date_now at 1.
    unfold bind at 1. unfold Date_now at 1. simpl.
    match goal with
    | |- context [saveSubtitleCache ?c ?u] =>
        destruct (saveSubtitleCache_healthy u c)
          as (w' & Hsave & _ & Henv & _ & Hstore)
    end.
    { destruct H as (Hw & Hf & Hr). split; [exact Hw|].
      split; [exact Hf | exact Hr]. }
    rewrite Hsave. exists w'. split; [reflexivity|].
    split; [reflexivity|].
    split; [apply Henv | exact Hstore].
Qed.

Lemma healthy_browser t m : healthy (browser t m).
Proof.
  split; [reflexivity|]. split; [intros i; reflexivity|].
  left. split; reflexivity.
Qed.

Lemma transcribeVideo_cache_hit_and_refresh_witness :
  (exists w',
      transcribeVideo (options_V1 None)
        (browser 1000 {[ js "V1" := entry_V1 0 2000 ]})
      = (Normal (result_of (options_V1 None)
                   (Some [seg_hi; seg_there]) true), w')
      /\ fetch_log w' = [])
  /\ (exists w',
        transcribeVideo (options_V1 (Some true))
          (browser 1000 {[ js "V1" := entry_V1 0 2000 ]})
        = (Normal (result_of (options_V1 (Some true))
                     (Some [seg_hi; seg_there]) false), w')
        /\ fetch_log w' = [request_of (options_V1 (Some true))]).
Proof.
  split.
  - destruct (transcribeVideo_cache_hit_and_refresh
                (browser 1000 {[ js "V1" := entry_V1 0 2000 ]})
                (options_V1 None) (healthy_browser _ _)) as [Hhit _].
    destruct (Hhit (entry_V1 0 2000) [seg_hi; seg_there])
      as (w' & Hrun & Hlog).
    + vm_compute. reflexivity.
    + reflexivity.
    + reflexivity.
    + vm_compute. reflexivity.
    + discriminate.
    + exists w'. split; assumption.
  - destruct (transcribeVideo_cache_hit_and_refresh
                (browser 1000 {[ js "V1" := entry_V1 0 2000 ]})
                (options_V1 (Some true)) (healthy_browser _ _))
      as [_ Hfresh].
    destruct (Hfresh eq_refl _ _ eq_refl eq_refl eq_refl)
      as (w' & Hrun & _ & Hlog & _).
    exists w'. split; assumption.
Defined.

(** The two-call scenario: with an empty cache the first call transcribes
    ([cached = false]); the second, within the TTL, is served from the
    cache with the same two segments and sends no further request. *)
Example scenario_V1_twice :
  let first := transcribeVideo (options_V1 None) (browser 1000 ∅) in
  let second := transcribeVideo (options_V1 None) (snd first) in
  fst first
  = Normal (result_of (options_V1 None) (Some [seg_hi; seg_there]) false)
  /\ fst second
     = Normal (result_of (options_V1 None) (Some [seg_hi; seg_there]) true)
  /\ length (fetch_log (snd second)) = 1%nat.
Proof. vm_compute. repeat split. Qed.

(** C10.  When the request has been sent and the reply is a success,
    and the [saveSubtitleCache] call made by [cacheResult] throws,
    [transcribeVideo] still returns normally, with the segments of the
    reply and [cached = false]; the error of the save reaches no one. *)
Theorem transcribeVideo_survives_cache_failure w o p w1 resp data e w2 :
  transcribe_start o w = (Normal (inr p), w1) ->
  fetch_reply w1 (pend_request p) = FetchResponse resp ->
  ok resp = true ->
  resp_body resp = BodyJson data ->
  saveSubtitleCache
    (entry_of w1 (pend_videoId p) (body_subtitles data) (pend_language p))
    (at_save w1)
  = (Throw e, w2) ->
  transcribeVideo o w
  = (Normal (result_of o (body_subtitles data) false), w2).
Proof.
  intros Hstart Hreply Hok Hbody Hsave.
  assert (Hp : pend_videoId p = opt_videoId o
               /\ pend_language p = default zh (opt_language o)).
  { revert Hstart. unfold transcribe_start, bind.
    destruct (if negb (default false (opt_forceRefresh o))
              then getCachedResult (opt_videoId o) else ret None)
      as [[[subs|]|err] u]; unfold fetch_send, bind, ret; simpl;
      intros Hstart; simplify_eq.
    split; reflexivity. }
  destruct Hp as [Hvid Hlang].
  unfold transcribeVideo. unfold bind at 1. rewrite Hstart.
  unfold bind at 1. unfold fetch_settle. rewrite Hreply.
  unfold transcribe_finish. rewrite Hok. simpl.
  unfold response_json. rewrite Hbody.
  unfold bind at 1. unfold ret at 1.
  unfold bind at 1. unfold cacheResult, cacheResult_try, try_catch.
  unfold bind at 1. unfold Date_now at 1.
  unfold bind at 1. unfold Date_now at 1. simpl.
  match goal with
  | |- context [saveSubtitleCache ?c ?u] =>
      change (saveSubtitleCache c u)
        with (saveSubtitleCache
                (entry_of w1 (pend_videoId p) (body_subtitles data)
                   (pend_language p))
                (at_save w1))
  end.
  rewrite Hsave. unfold ret, result_of. rewrite Hvid, Hlang. reflexivity.
Qed.

Lemma transcribeVideo_survives_cache_failure_witness :
  exists w2,
    transcribeVideo (options_V1 None) (browser_without_indexedDB 1000)
    = (Normal (result_of (options_V1 None)
                 (Some [seg_hi; seg_there]) false), w2).
Proof.
  eexists.
  eapply (transcribeVideo_survives_cache_failure
            (browser_without_indexedDB 1000) (options_V1 None) _ _
            (TranscribeRoute.POST (Some (js "V1")) (Some (js "sk-test"))
               (TranscribeRoute.Transcribed [seg_hi; seg_there]))
            {| body_error := None; body_message := None;
               body_details := None;
               body_subtitles := Some [seg_hi; seg_there] |}).
  - vm_compute. reflexivity.
  - vm_compute. reflexivity.
  - reflexivity.
  - reflexivity.
  - vm_compute. reflexivity.
Defined.

(** C2, as stated, fails: the service keeps no record of a pending
    call, so a second call for the same video made while the first waits
    for its reply sends a second request. *)
Lemma second_concurrent_call_sends_second_request : ~ single_flight.
Proof.
  intros Hclaim.
  pose proof
    (Hclaim (browser 1000 ∅) (options_V1 None) (options_V1 None)
       {| pend_videoId := js "V1"; pend_language := js "zh";
          pend_request := 0 |}
       (snd (transcribe_start (options_V1 None) (browser 1000 ∅)))
       eq_refl) as H.
  assert (E : transcribe_start (options_V1 None) (browser 1000 ∅)
              = (Normal (inr {| pend_videoId := js "V1";
                                pend_language := js "zh";
                                pend_request := 0 |}),
                 snd (transcribe_start (options_V1 None)
                        (browser 1000 ∅))))
    by (vm_compute; reflexivity).
  specialize (H E). apply (f_equal (@length _)) in H.
  vm_compute in H. discriminate.
Qed.

(** C2, amended.  With a working store that holds no entry for the
    video, two calls of [transcribeVideo] for it that both reach their
    request before a reply has arrived each send a request of their own,
    however their steps interleave: two external invocations, in the
    order in which the calls reach [fetch] (call order when the second
    call starts after the first has sent its request; not necessarily
    otherwise), each call waiting for the reply to its own request; and
    each call, once its reply arrives, returns the segments of that reply
    with [cached = false]. *)
Theorem concurrent_calls_each_send_a_request w o1 o2 :
  healthy w ->
  cache_store w !! opt_videoId o1 = None ->
  opt_videoId o2 = opt_videoId o1 ->
  (exists p1 w1 p2 w2,
     transcribe_start o1 w = (Normal (inr p1), w1)
     /\ transcribe_start o2 w1 = (Normal (inr p2), w2)
     /\ fetch_log w2 = fetch_log w ++ [request_of o1; request_of o2]
     /\ pend_request p1 = length (fetch_log w)
     /\ pend_request p2 = S (length (fetch_log w))
     /\ forall u resp data,
          ok resp = true -> resp_body resp = BodyJson data ->
          (exists u',
              transcribe_finish p1 (FetchResponse resp) u
              = (Normal (result_of o1 (body_subtitles data) false), u'))
          /\ (exists u',
                transcribe_finish p2 (FetchResponse resp) u
                = (Normal (result_of o2 (body_subtitles data) false), u')))
  /\ (forall sched,
        steps_of false sched = 2%nat ->
        steps_of true sched = 2%nat ->
        exists p1 p2 w',
          interleave o1 o2 sched AtCacheRead AtCacheRead w
          = (Normal (AtFetch p1, AtFetch p2), w')
          /\ ((fetch_log w' = fetch_log w ++ [request_of o1; request_of o2]
               /\ pend_request p1 = length (fetch_log w)
               /\ pend_request p2 = S (length (fetch_log w)))
              \/ (fetch_log w' = fetch_log w ++ [request_of o2; request_of o1]
                  /\ pend_request p2 = length (fetch_log w)
                  /\ pend_request p1 = S (length (fetch_log w))))
          /\ forall u resp data,
               ok resp = true -> resp_body resp = BodyJson data ->
               (exists u',
                   transcribe_finish p1 (FetchResponse resp) u
                   = (Normal (result_of o1 (body_subtitles data) false), u'))
               /\ (exists u',
                     transcribe_finish p2 (FetchResponse resp) u
                     = (Normal (result_of o2 (body_subtitles data) false),
                        u'))).
Proof.
  intros H Hc Hvid. split.
  - destruct (transcribe_start_miss w o1 H Hc)
      as (w1 & Hs1 & H1 & Hstore1 & Hlog1).
    assert (Hc2 : cache_store w1 !! opt_videoId o2 = None)
      by (rewrite Hvid, Hstore1; exact Hc).
    destruct (transcribe_start_miss w1 o2 H1 Hc2)
      as (w2 & Hs2 & H2 & Hstore2 & Hlog2).
    do 4 eexists. split; [exact Hs1|]. split; [exact Hs2|].
    split; [rewrite Hlog2, Hlog1, <- app_assoc; reflexivity|].
    split; [reflexivity|].
    split; [simpl; rewrite Hlog1, length_app; simpl; lia|].
    intros u resp data Hok Hbody. split.
    + destruct (transcribe_finish_ok
                  {| pend_videoId := opt_videoId o1;
                     pend_language := default zh (opt_language o1);
                     pend_request := length (fetch_log w) |}
                  resp data u Hok Hbody) as (u' & Hf).
      exists u'. exact Hf.
    + destruct (transcribe_finish_ok
                  {| pend_videoId := opt_videoId o2;
                     pend_language := default zh (opt_language o2);
                     pend_request := length (fetch_log w1) |}
                  resp data u Hok Hbody) as (u' & Hf).
      exists u'. exact Hf.
  - intros sched Hfirst Hsecond.
    assert (Hlen : length sched = 4%nat)
      by (rewrite <- steps_of_total; lia).
    destruct sched as [|a [|b [|c [|d [|]]]]]; try discriminate Hlen.
    clear Hlen.
    destruct a, b, c, d; vm_compute in Hfirst, Hsecond;
      try discriminate Hfirst; try discriminate Hsecond;
      clear Hfirst Hsecond.
    all: do 4
      (cbn [interleave]; unfold bind at 1;
       match goal with
       | |- context [advance ?o AtCacheRead ?u] =>
           let u' := fresh "u" in
           destruct (advance_cache_read u o ltac:(assumption)
                       ltac:(congruence)) as (u' & -> & ? & ? & ?)
       | |- context [advance ?o (AtRequest None) ?u] =>
           let u' := fresh "u" in
           destruct (advance_request u o ltac:(assumption))
             as (u' & -> & ? & ? & ?)
       end).
    all: cbn [interleave]; unfold ret.
    all: do 3 eexists; split; [reflexivity|]; split;
      [ cbn [pend_request];
        repeat match goal with
               | E : fetch_log ?x = _ |- context [fetch_log ?x] => rewrite E
               end;
        rewrite <- ?app_assoc, ?length_app; cbn [app length];
        first [ left; repeat split; solve [reflexivity | lia]
              | right; repeat split; solve [reflexivity | lia] ]
      | intros v resp data Hok Hbody; split;
        match goal with
        | |- exists _, transcribe_finish ?p _ _ = _ =>
            destruct (transcribe_finish_ok p resp data v Hok Hbody)
              as (v' & Hf);
            exists v'; exact Hf
        end ].
Qed.

Lemma concurrent_calls_each_send_a_request_witness :
  exists p1 p2 w',
    interleave (options_V1 None) (options_V1 (Some true))
      [false; true; true; false] AtCacheRead AtCacheRead (browser 1000 ∅)
    = (Normal (AtFetch p1, AtFetch p2), w')
    /\ length (fetch_log w') = 2%nat
    /\ pend_request p2 = 0%nat
    /\ pend_request p1 = 1%nat.
Proof.
  destruct (proj2 (concurrent_calls_each_send_a_request (browser 1000 ∅)
                     (options_V1 None) (options_V1 (Some true))
                     (healthy_browser _ _) (lookup_empty _) eq_refl)
              [false; true; true; false] eq_refl eq_refl)
    as (p1 & p2 & w' & Hrun & Horder & _).
  exists p1, p2, w'. split; [exact Hrun|].
  destruct Horder as [(Hlog & Hp1 & Hp2) | (Hlog & Hp2 & Hp1)].
  - exfalso. vm_compute in Hrun. injection Hrun as <- <- <-.
    discriminate Hp1.
  - rewrite Hlog, Hp1, Hp2. repeat split.
Defined.

(** C7, as stated, fails: a malformed request (the route's 400 reply to
    a body without [videoId]) reaches the caller marked retryable. *)
Lemma malformed_request_is_marked_retryable : ~ classified_by_kind.
Proof.
  intros Hclaim.
  destruct (Hclaim
              {| pend_videoId := []; pend_language := js "zh";
                 pend_request := 0 |}
              (TranscribeRoute.POST None None
                 (TranscribeRoute.Transcribed []))
              MalformedRequest (browser 1000 ∅)
              (kind_malformed None (TranscribeRoute.Transcribed [])))
    as (e & He & Hr).
  vm_compute in He. injection He as <-. vm_compute in Hr. discriminate.
Qed.

(** C7, amended.  A reply that is not [ok] and has a JSON body
    reaches the caller of [transcribeVideo] as a thrown error carrying
    the reply's message, its error code, its HTTP status and a
    [retryable] flag that is false exactly for status 500 and 501 and
    true for every other status (400, 401, 429, 503, ...); the page
    treats exactly those two as non-retryable.  A reply that is not [ok]
    and whose body is not JSON makes [response.json()] throw, and that
    error reaches the caller as it is, with no code, no status and no
    [retryable] flag, so the page does not treat it as non-retryable; a
    rejected fetch is rethrown as it is.  In no case is anything written
    to the cache. *)
Theorem failure_is_classified_by_status p resp w :
  ok resp = false ->
  (forall data,
      resp_body resp = BodyJson data ->
      let err := error_of_reply (resp_status resp) data in
      transcribe_finish p (FetchResponse resp) w = (Throw err, w)
      /\ status err = Some (resp_status resp)
      /\ code err = body_error data
      /\ (retryable err = Some false
          <-> resp_status resp = 500 \/ resp_status resp = 501)
      /\ (retryable err = Some true
          <-> resp_status resp <> 500 /\ resp_status resp <> 501)
      /\ (VideoPage.nonRetryable err = true
          <-> resp_status resp = 500 \/ resp_status resp = 501))
  /\ (resp_body resp = BodyNotJson ->
      transcribe_finish p (FetchResponse resp) w = (Throw SyntaxError, w)
      /\ code SyntaxError = None
      /\ status SyntaxError = None
      /\ retryable SyntaxError = None
      /\ VideoPage.nonRetryable SyntaxError = false)
  /\ forall e, transcribe_finish p (FetchRejected e) w = (Throw e, w).
Proof.
  intros Hok. split; [|split].
  - intros data Hbody err. split.
    { unfold transcribe_finish. rewrite Hok. simpl.
      unfold response_json. rewrite Hbody. reflexivity. }
    split; [reflexivity|]. split; [reflexivity|].
    unfold err, VideoPage.nonRetryable, error_of_reply; simpl.
    destruct (Z.eqb_spec (resp_status resp) 501) as [E1|E1];
      destruct (Z.eqb_spec (resp_status resp) 500) as [E0|E0]; simpl.
    all: repeat split; intros; try discriminate; try lia; auto.
  - intros Hbody. split; [|repeat split].
    unfold transcribe_finish. rewrite Hok. simpl.
    unfold response_json. rewrite Hbody. reflexivity.
  - reflexivity.
Qed.

Lemma failure_is_classified_by_status_witness :
  transcribe_finish
    {| pend_videoId := []; pend_language := js "zh"; pend_request := 0 |}
    (FetchResponse
       (TranscribeRoute.POST None None (TranscribeRoute.Transcribed [])))
    (browser 1000 ∅)
  = (Throw {| message := js "videoId is required";
              code := Some (js "INVALID_PARAMS");
              status := Some 400;
              retryable := Some true |},
     browser 1000 ∅)
  /\ transcribe_finish
       {| pend_videoId := []; pend_language := js "zh"; pend_request := 0 |}
       (FetchResponse {| resp_status := 502; resp_body := BodyNotJson |})
       (browser 1000 ∅)
     = (Throw SyntaxError, browser 1000 ∅).
Proof.
  split.
  - exact (proj1 (proj1 (failure_is_classified_by_status
                           {| pend_videoId := []; pend_language := js "zh";
                              pend_request := 0 |}
                           (TranscribeRoute.POST None None
                              (TranscribeRoute.Transcribed []))
                           (browser 1000 ∅) eq_refl)
                    {| body_error := Some (js "INVALID_PARAMS");
                       body_message := Some (js "videoId is required");
                       body_details := None;
                       body_subtitles := None |}
                    eq_refl)).
  - exact (proj1 (proj1 (proj2 (failure_is_classified_by_status
                                  {| pend_videoId := [];
                                     pend_language := js "zh";
                                     pend_request := 0 |}
                                  {| resp_status := 502;
                                     resp_body := BodyNotJson |}
                                  (browser 1000 ∅) eq_refl))
                    eq_refl)).
Defined.

End SpeechRecognitionTheorems.

(* ===================================================================== *)
(** * Properties of the page's transcription trigger *)
(* ===================================================================== *)

Section VideoPageTheorems.
Import Runtime VideoPage.




(** While a call is in flight the trigger does not start another one. *)
Lemma effect_waits_for_pending_call s :
  isTranscribing s = true -> effect s = s.
Proof.
  intros H. unfold effect. destruct (video s); [|reflexivity].
  rewrite H, !orb_true_r. reflexivity.
Qed.




End VideoPageTheorems.

(* ===================================================================== *)
(** * Further properties of the cache *)
(* ===================================================================== *)

Section CacheSweep.
Import Runtime IndexedDBStorage Spec Spec2.

Lemma same_env_refl w : same_env w w.
Proof. repeat split. Qed.

Lemma same_env_trans w1 w2 w3 :
  same_env w1 w2 -> same_env w2 w3 -> same_env w1 w3.
Proof.
  intros (A1 & A2 & A3 & A4 & A5) (B1 & B2 & B3 & B4 & B5).
  repeat split; congruence.
Qed.

Lemma cursor_loop_healthy keys : forall n w,
  healthy w -> db w = true ->
  exists w',
    cursor_loop keys n w = (Normal (n + length keys)%nat, w')
    /\ healthy w' /\ db w' = true /\ same_env w w'
    /\ clock_reads w' = clock_reads w
    /\ forall k, cache_store w' !! k
                 = if bool_decide (k ∈ keys) then None
                   else cache_store w !! k.
Proof.
  induction keys as [|key keys IH]; intros n w H Hdb.
  - exists w.
    split; [simpl; unfold ret; rewrite Nat.add_0_r; reflexivity|].
    split; [exact H|]. split; [exact Hdb|].
    split; [apply same_env_refl|]. split; [reflexivity|].
    intros k. rewrite bool_decide_eq_false_2; [reflexivity|].
    apply not_elem_of_nil.
  - destruct H as (Hwin & Hf & Hready).
    simpl. unfold bind at 1. unfold idb_request at 1. rewrite Hf.
    unfold bind at 1. unfold get_store at 1.
    unfold bind at 1. unfold put_store at 1.
    unfold bind at 1. unfold idb_request at 1. simpl. rewrite Hf.
    match goal with
    | |- context [cursor_loop keys (S n) ?u] =>
        destruct (IH (S n) u) as (w' & Hrun & H' & Hdb' & Henv & Hreads & Hk)
    end.
    { split; [exact Hwin|]. split; [exact Hf|]. exact Hready. }
    { exact Hdb. }
    exists w'. rewrite Hrun.
    split; [f_equal; f_equal; lia|]. split; [exact H'|].
    split; [exact Hdb'|].
    split; [eapply same_env_trans; [|exact Henv]; repeat split|].
    split; [exact Hreads|].
    intros k. rewrite Hk.
    cbn [cache_store with_cache_store with_idb_requests].
    destruct (decide (k = key)) as [->|Hne].
    + rewrite (bool_decide_eq_true_2 (key ∈ key :: keys))
        by apply list_elem_of_here.
      destruct (bool_decide (key ∈ keys)); [reflexivity|].
      apply lookup_delete_eq.
    + rewrite lookup_delete_ne by congruence.
      destruct (decide (k ∈ keys)) as [Hin|Hnin].
      * rewrite !bool_decide_eq_true_2; auto. now apply list_elem_of_further.
      * rewrite !bool_decide_eq_false_2; auto.
        intros Hin. apply elem_of_cons in Hin. destruct Hin; auto.
Qed.

Lemma elem_of_keys_upTo (t : Z) (m : gmap jsstring SubtitleCache)
    (k : jsstring) :
  k ∈ keys_upTo t m <-> exists c, m !! k = Some c /\ expiresAt c <= t.
Proof.
  unfold keys_upTo. rewrite list_elem_of_fmap. split.
  - intros ([k' c] & -> & Hin). simpl.
    apply elem_of_map_to_list, map_lookup_filter_Some in Hin.
    exists c. exact Hin.
  - intros (c & Hc & Hexp). exists (k, c). split; [reflexivity|].
    apply elem_of_map_to_list, map_lookup_filter_Some. split; assumption.
Qed.

Lemma length_keys_upTo (t : Z) (m : gmap jsstring SubtitleCache) :
  (length (keys_upTo t m) + size (unexpired_at t m))%nat = size m.
Proof.
  unfold keys_upTo, unexpired_at.
  rewrite length_fmap, length_map_to_list.
  rewrite <- map_size_disj_union
    by apply (map_disjoint_filter_complement
                (fun kv : jsstring * SubtitleCache => expiresAt kv.2 <= t)).
  rewrite (map_filter_union_complement
             (fun kv : jsstring * SubtitleCache => expiresAt kv.2 <= t)).
  reflexivity.
Qed.

Lemma clearExpiredCache_healthy w :
  healthy w ->
  exists w',
    clearExpiredCache w
    = (Normal (length (keys_upTo (now w) (cache_store w))), w')
    /\ healthy w'
    /\ cache_store w' = unexpired_at (now w) (cache_store w).
Proof.
  intros H.
  destruct (initialize_healthy w H)
    as (w1 & Hinit & H1 & Hdb & Henv & Hreads & Hstore).
  destruct H as (Hwin & _).
  unfold clearExpiredCache, bind at 1, isAvailable. rewrite Hwin. simpl.
  unfold bind at 1. rewrite Hinit.
  unfold bind at 1. unfold this_db. rewrite Hdb. simpl.
  unfold try_catch. unfold bind at 1. unfold Date_now at 1.
  unfold transaction. unfold bind at 1. unfold idb_request at 1.
  destruct H1 as (Hwin1 & Hf1 & Hready1). simpl. rewrite Hf1.
  unfold bind at 1. unfold get_store at 1. unfold bind at 1. simpl.
  match goal with
  | |- context [cursor_loop ?ks 0%nat ?u] =>
      destruct (cursor_loop_healthy ks 0%nat u)
        as (w2 & Hrun & H2 & Hdb2 & Henv2 & Hreads2 & Hk)
  end.
  { split; [exact Hwin1|]. split; [exact Hf1 | exact Hready1]. }
  { exact Hdb. }
  rewrite Hrun. unfold bind at 1. unfold idb_request at 1.
  destruct H2 as (Hwin2 & Hf2 & Hready2). rewrite Hf2. unfold ret.
  destruct Henv as (E1 & E2 & E3 & E4 & E5).
  unfold now. rewrite <- E2, <- Hreads, <- Hstore.
  eexists. split; [reflexivity|].
  split.
  { split; [exact Hwin2|]. split; [exact Hf2 | exact Hready2]. }
  simpl. apply map_eq. intros k. rewrite Hk. simpl.
  unfold unexpired_at.
  destruct (decide (k ∈ keys_upTo (clock w1 (clock_reads w1))
                         (cache_store w1))) as [Hin|Hnin].
  - rewrite bool_decide_eq_true_2 by exact Hin. symmetry.
    apply elem_of_keys_upTo in Hin. destruct Hin as (c & Hc & Hexp).
    apply map_lookup_filter_None. right. intros x Hx. simpl.
    rewrite Hc in Hx. injection Hx as <-. tauto.
  - rewrite bool_decide_eq_false_2 by exact Hnin. symmetry.
    destruct (cache_store w1 !! k) as [c|] eqn:Hc.
    + apply map_lookup_filter_Some. split; [exact Hc|]. simpl.
      intros Hexp. apply Hnin. apply elem_of_keys_upTo. eauto.
    + apply map_lookup_filter_None. left. exact Hc.
Qed.

End CacheSweep.

Section CacheExtras.
Import Runtime IndexedDBStorage Spec Spec2 Examples Examples2.

(** X1.  On a working store [clearExpiredCache] deletes exactly the
    entries with [expiresAt <= now] (the bound of the cursor is
    inclusive): an entry is still stored afterwards iff it was stored
    and [now < expiresAt]; the number returned is the number of entries
    deleted. *)
Theorem sweep_removes_exactly_the_expired w :
  healthy w ->
  exists n w',
    clearExpiredCache w = (Normal n, w')
    /\ (forall k c,
          cache_store w' !! k = Some c
          <-> cache_store w !! k = Some c /\ now w < expiresAt c)
    /\ size (cache_store w) = (n + size (cache_store w'))%nat
    /\ healthy w'.
Proof.
  intros H. destruct (clearExpiredCache_healthy w H) as (w' & Hrun & H' & Hs).
  exists (length (keys_upTo (now w) (cache_store w))), w'.
  split; [exact Hrun|]. split; [|split; [|exact H']].
  - intros k c. rewrite Hs. unfold unexpired_at.
    rewrite map_lookup_filter_Some. simpl. split; intros [? ?]; split;
      auto; lia.
  - rewrite Hs. symmetry. apply length_keys_upTo.
Qed.

Lemma sweep_removes_exactly_the_expired_witness :
  exists w',
    clearExpiredCache (browser 1000 two_entries) = (Normal 1%nat, w')
    /\ cache_store w' !! js "V1" = None
    /\ cache_store w' !! js "V2" = Some (entry_V2 2000).
Proof.
  destruct (sweep_removes_exactly_the_expired (browser 1000 two_entries)
              (healthy_browser _ _)) as (n & w' & Hrun & Hk & Hsize & _).
  assert (H2 : cache_store w' !! js "V2" = Some (entry_V2 2000)).
  { apply Hk. split; [vm_compute; reflexivity | vm_compute; reflexivity]. }
  assert (H1 : cache_store w' !! js "V1" = None).
  { destruct (cache_store w' !! js "V1") as [c|] eqn:E; [|reflexivity].
    apply Hk in E. destruct E as [E Hlt]. vm_compute in E.
    injection E as <-. vm_compute in Hlt. discriminate. }
  exists w'. split; [|split; assumption].
  rewrite Hrun. f_equal. f_equal.
  assert (Hn : size (cache_store w') = 1%nat).
  { assert (E : cache_store w' = {[ js "V2" := entry_V2 2000 ]}).
    { apply map_eq. intros k. destruct (decide (k = js "V2")) as [->|Hne].
      - rewrite H2. symmetry. apply lookup_singleton_eq.
      - rewrite lookup_singleton_ne by congruence.
        destruct (cache_store w' !! k) as [c|] eqn:E; [|reflexivity].
        apply Hk in E. destruct E as [E Hlt]. unfold two_entries in E.
        simpl in E. destruct (decide (k = js "V1")) as [->|Hne1].
        + rewrite lookup_insert_eq in E. injection E as <-.
          vm_compute in Hlt. discriminate.
        + rewrite lookup_insert_ne, lookup_singleton_ne in E by congruence.
          discriminate. }
    rewrite E. apply map_size_singleton. }
  rewrite Hn in Hsize.
  assert (Hs : size (cache_store (browser 1000 two_entries)) = 2%nat)
    by (vm_compute; reflexivity).
  lia.
Defined.

(** X2.  The read path and the sweep disagree on an entry whose
    [expiresAt] equals the current time: [loadSubtitleCache] returns it,
    while [clearExpiredCache] deletes it and [getCacheStats] counts it as
    expired. *)
Theorem load_and_sweep_disagree_at_expiry w vid c :
  healthy w ->
  cache_store w !! vid = Some c ->
  expiresAt c = now w ->
  fst (loadSubtitleCache vid w) = Normal (Some c)
  /\ cache_store (snd (clearExpiredCache w)) !! vid = None
  /\ exists st, fst (getCacheStats w) = Normal st
                /\ (1 <= expiredEntries st)%nat.
Proof.
  intros H Hc Hexp. split; [|split].
  - destruct (loadSubtitleCache_healthy w vid H) as (w' & _ & _ & Hload).
    rewrite Hc in Hload. destruct Hload as [_ Hload].
    assert (E : (expiresAt c <? now w) = false) by (apply Z.ltb_ge; lia).
    rewrite E in Hload. destruct Hload as [-> _]. reflexivity.
  - destruct (clearExpiredCache_healthy w H) as (w' & Hrun & _ & Hs).
    rewrite Hrun. cbn [snd]. rewrite Hs.
    apply map_lookup_filter_None. right. intros x Hx. simpl.
    rewrite Hc in Hx. injection Hx as <-. lia.
  - eexists. split; [apply getCacheStats_healthy; exact H|]. simpl.
    assert (Hin : vid ∈ keys_upTo (now w) (cache_store w)).
    { apply elem_of_keys_upTo. exists c. split; [exact Hc | lia]. }
    destruct (keys_upTo (now w) (cache_store w)); [|simpl; lia].
    apply elem_of_nil in Hin. contradiction.
Qed.

Lemma load_and_sweep_disagree_at_expiry_witness :
  fst (loadSubtitleCache (js "V1") (browser 1000 two_entries))
  = Normal (Some (entry_V1 0 1000))
  /\ cache_store (snd (clearExpiredCache (browser 1000 two_entries)))
     !! js "V1" = None.
Proof.
  destruct (load_and_sweep_disagree_at_expiry (browser 1000 two_entries)
              (js "V1") (entry_V1 0 1000) (healthy_browser _ _))
    as (Hload & Hsweep & _).
  - vm_compute. reflexivity.
  - reflexivity.
  - split; assumption.
Defined.

Lemma clearVideoCache_healthy w vid :
  healthy w ->
  exists w',
    clearVideoCache vid w = (Normal tt, w')
    /\ healthy w' /\ same_env w w'
    /\ cache_store w' = delete vid (cache_store w).
Proof.
  intros H.
  destruct (initialize_healthy w H)
    as (w1 & Hinit & H1 & Hdb & Henv & Hreads & Hstore).
  destruct H as (Hwin & _).
  unfold clearVideoCache, bind, isAvailable. rewrite Hwin. simpl.
  rewrite Hinit. unfold this_db. rewrite Hdb. simpl.
  unfold try_catch, db_delete, bind, idb_request, get_store, put_store.
  destruct H1 as (Hwin1 & Hf1 & Hready1). rewrite Hf1. simpl.
  eexists. split; [reflexivity|].
  destruct Henv as (E1 & E2 & E3 & E4 & E5).
  unfold healthy, no_faults, service_ready, same_env in *; simpl.
  rewrite Hstore. intuition.
Qed.

Lemma clearAllCache_healthy w :
  healthy w ->
  exists w',
    clearAllCache w = (Normal tt, w')
    /\ healthy w' /\ cache_store w' = ∅.
Proof.
  intros H.
  destruct (initialize_healthy w H)
    as (w1 & Hinit & H1 & Hdb & Henv & Hreads & Hstore).
  destruct H as (Hwin & _).
  unfold clearAllCache, bind, isAvailable. rewrite Hwin. simpl.
  rewrite Hinit. unfold this_db. rewrite Hdb. simpl.
  unfold try_catch, db_clear, bind, idb_request, put_store.
  destruct H1 as (Hwin1 & Hf1 & Hready1). rewrite Hf1. simpl.
  eexists. split; [reflexivity|].
  unfold healthy, no_faults, service_ready in *; simpl. intuition.
Qed.

(** X3.  On a working store [clearAllCache] leaves the store empty:
    afterwards [getCacheStats] reports zero entries and
    [loadSubtitleCache] returns [null] for every video. *)
Theorem clearAllCache_empties_the_store w :
  healthy w ->
  exists w',
    clearAllCache w = (Normal tt, w')
    /\ cache_store w' = ∅
    /\ fst (getCacheStats w')
       = Normal {| totalEntries := 0; expiredEntries := 0 |}
    /\ forall vid, fst (loadSubtitleCache vid w') = Normal None.
Proof.
  intros H. destruct (clearAllCache_healthy w H) as (w' & Hrun & H' & Hs).
  exists w'. split; [exact Hrun|]. split; [exact Hs|]. split.
  - rewrite (getCacheStats_healthy w' H'), Hs. unfold keys_upTo.
    rewrite map_filter_empty, map_to_list_empty. reflexivity.
  - intros vid.
    destruct (loadSubtitleCache_healthy w' vid H') as (u & _ & _ & Hload).
    rewrite Hs, lookup_empty in Hload. destruct Hload as [-> _].
    reflexivity.
Qed.

Lemma clearAllCache_empties_the_store_witness :
  exists w',
    clearAllCache (browser 1000 two_entries) = (Normal tt, w')
    /\ fst (loadSubtitleCache (js "V2") w') = Normal None.
Proof.
  destruct (clearAllCache_empties_the_store (browser 1000 two_entries)
              (healthy_browser _ _)) as (w' & Hrun & _ & _ & Hload).
  exists w'. split; [exact Hrun | apply Hload].
Defined.

(** X4.  A failed open is never retried: when [openDB] rejects, the
    rejected promise is memoised, and from then on [loadSubtitleCache],
    [saveSubtitleCache], [clearExpiredCache] and [getCacheStats] all throw
    [INDEXEDDB_INIT_FAILED] without sending any request to IndexedDB,
    even if IndexedDB works by then. *)
Theorem failed_open_is_permanent w vid c :
  indexedDB_in_window w = true ->
  initPromise w = None ->
  idb_fault w (idb_requests w) = true ->
  open_failed (snd (loadSubtitleCache vid w))
  /\ forall u,
       open_failed u ->
       loadSubtitleCache vid u
       = (Throw (Error (js "INDEXEDDB_INIT_FAILED")), u)
       /\ saveSubtitleCache c u
          = (Throw (Error (js "INDEXEDDB_INIT_FAILED")), u)
       /\ clearExpiredCache u
          = (Throw (Error (js "INDEXEDDB_INIT_FAILED")), u)
       /\ getCacheStats u
          = (Throw (Error (js "INDEXEDDB_INIT_FAILED")), u).
Proof.
  intros Hwin Hp Hfault. split.
  - unfold loadSubtitleCache, bind, isAvailable, initialize, idb_request.
    rewrite Hwin. simpl. rewrite Hp, Hfault. simpl.
    split; [exact Hwin | reflexivity].
  - intros u [Hw Hi].
    unfold loadSubtitleCache, saveSubtitleCache, clearExpiredCache,
      getCacheStats, bind, isAvailable, initialize.
    rewrite Hw. simpl. rewrite Hi. repeat split.
Qed.

Lemma failed_open_is_permanent_witness :
  open_failed (snd (loadSubtitleCache (js "V1") (browser_failing_open 1000)))
  /\ saveSubtitleCache (entry_V1 0 0) (browser_open_failed 1000)
     = (Throw (Error (js "INDEXEDDB_INIT_FAILED")), browser_open_failed 1000).
Proof.
  destruct (failed_open_is_permanent (browser_failing_open 1000) (js "V1")
              (entry_V1 0 0) eq_refl eq_refl eq_refl) as [Hfailed Hafter].
  split; [exact Hfailed|].
  apply (Hafter (browser_open_failed 1000)). split; reflexivity.
Defined.

(** X5.  [saveSubtitleCache] either succeeds or throws an [Error] with
    one of its four own messages ([INDEXEDDB_NOT_AVAILABLE],
    [INDEXEDDB_INIT_FAILED], [INDEXEDDB_NOT_INITIALIZED],
    [CACHE_SAVE_FAILED]); no rejection of IndexedDB reaches the caller
    as it is, and when it throws the store is left as it was. *)
Theorem saveSubtitleCache_throws_only_its_own_errors w c :
  (exists w', saveSubtitleCache c w = (Normal tt, w'))
  \/ (exists msg w',
        saveSubtitleCache c w = (Throw (Error msg), w')
        /\ msg ∈ save_errors
        /\ cache_store w' = cache_store w).
Proof.
  unfold saveSubtitleCache, bind, isAvailable, initialize, this_db,
    try_catch, bind, Date_now, db_put, bind, idb_request, get_store,
    put_store, ret, throw, save_errors.
  cases; simplify_eq; simpl in *.
  all: first
    [ left; eexists; reflexivity
    | right; eexists; eexists; split; [reflexivity|]; split;
      [set_solver | reflexivity] ].
Qed.

End CacheExtras.

(* ===================================================================== *)
(** * Further properties of the transcription service *)
(* ===================================================================== *)

Section ServiceExtras.
Import Runtime IndexedDBStorage SpeechRecognition SpeechStatus.
Import Spec Spec2 Examples Examples2.

Lemma healthy_with_fetch_log l w : healthy w -> healthy (with_fetch_log l w).
Proof. intros (A & B & C). split; [exact A|]. split; [exact B | exact C]. Qed.

Lemma transcribe_start_healthy w o :
  healthy w ->
  exists r w1,
    transcribe_start o w = (Normal r, w1)
    /\ healthy w1
    /\ clock w1 = clock w
    /\ fetch_reply w1 = fetch_reply w
    /\ match r with
       | inl _ => fetch_log w1 = fetch_log w
       | inr p =>
           p = {| pend_videoId := opt_videoId o;
                  pend_language := default zh (opt_language o);
                  pend_request := length (fetch_log w) |}
           /\ fetch_log w1 = fetch_log w ++ [request_of o]
       end.
Proof.
  intros H. unfold transcribe_start, bind.
  destruct (negb (default false (opt_forceRefresh o))).
  - destruct (getCachedResult_total (opt_videoId o) w)
      as (r & w' & Hget & Hlog & Hreply).
    destruct (getCachedResult_healthy w (opt_videoId o) H)
      as (u & Hu & Henv & Hcase).
    assert (Hw' : healthy w' /\ clock w' = clock w).
    { destruct Henv as (E1 & E2 & _).
      destruct (cache_store w !! opt_videoId o) as [c|].
      - destruct (expiresAt c <? now w).
        + rewrite Hcase in Hget. injection Hget as _ <-. auto.
        + destruct Hcase as [Hcase _]. rewrite Hcase in Hget.
          injection Hget as _ <-. auto.
      - destruct Hcase as [Hcase _]. rewrite Hcase in Hget.
        injection Hget as _ <-. auto. }
    destruct Hw' as [Hh Hclock]. rewrite Hget.
    destruct r as [subs|]; unfold ret, fetch_send; simpl.
    + do 2 eexists. split; [reflexivity|]. auto.
    + do 2 eexists. split; [reflexivity|].
      split; [apply healthy_with_fetch_log; exact Hh|].
      simpl. rewrite Hlog. auto.
  - unfold ret, fetch_send; simpl.
    do 2 eexists. split; [reflexivity|].
    split; [apply healthy_with_fetch_log; exact H|]. simpl. auto.
Qed.

Lemma transcribe_finish_healthy p resp data w1 :
  healthy w1 ->
  ok resp = true ->
  resp_body resp = BodyJson data ->
  exists w2,
    transcribe_finish p (FetchResponse resp) w1
    = (Normal {| res_videoId := pend_videoId p;
                 res_subtitles := body_subtitles data;
                 res_source := speech_recognition;
                 res_language := pend_language p;
                 res_cached := false |}, w2)
    /\ healthy w2 /\ same_env w1 w2
    /\ clock_reads w2 = S (S (S (S (clock_reads w1))))
    /\ cache_store w2
       = <[pend_videoId p :=
             stamped (at_save w1)
               (entry_of w1 (pend_videoId p) (body_subtitles data)
                  (pend_language p))]> (cache_store w1).
Proof.
  intros H Hok Hbody.
  unfold transcribe_finish. rewrite Hok. simpl.
  unfold response_json. rewrite Hbody.
  unfold bind at 1. unfold ret at 1.
  unfold bind at 1. unfold cacheResult, cacheResult_try, try_catch.
  unfold bind at 1. unfold Date_now at 1.
  unfold bind at 1. unfold Date_now at 1. simpl.
  match goal with
  | |- context [saveSubtitleCache ?c ?u] =>
      destruct (saveSubtitleCache_healthy u c)
        as (w2 & Hsave & H2 & Henv & Hreads & Hstore)
  end.
  { destruct H as (Hw & Hf & Hr). split; [exact Hw|].
    split; [exact Hf | exact Hr]. }
  rewrite Hsave. exists w2. split; [reflexivity|].
  split; [exact H2|]. split; [exact Henv|].
  split; [exact Hreads | exact Hstore].
Qed.

(** X6.  [checkStatus] only reflects the cache: in every state of the
    store it returns, without throwing, either [completed] with progress
    100 or [pending] with progress 0 (never [processing] or [failed]);
    and on a working store it returns [completed] exactly when the store
    holds a speech-recognition entry for the video that has not expired
    ([now <= expiresAt]). *)
Theorem checkStatus_reflects_the_cache w vid :
  (exists st w',
      checkStatus vid w = (Normal st, w')
      /\ (st = {| task_status := VideoPage.completed; task_progress := 100 |}
          \/ st = {| task_status := VideoPage.pending; task_progress := 0 |}))
  /\ (healthy w ->
      fst (checkStatus vid w)
      = Normal {| task_status := VideoPage.completed; task_progress := 100 |}
      <-> exists c, cache_store w !! vid = Some c
                    /\ source c = speech_recognition
                    /\ now w <= expiresAt c).
Proof.
  split.
  - unfold checkStatus, hasCachedResult, try_catch, bind.
    destruct (loadSubtitleCache vid w) as [[[c|]|e] u]; unfold ret; simpl.
    + destruct (Source_eqb (source c) speech_recognition);
        do 2 eexists; (split; [reflexivity|]); auto.
    + do 2 eexists. split; [reflexivity|]. auto.
    + do 2 eexists. split; [reflexivity|]. auto.
  - intros H.
    destruct (loadSubtitleCache_healthy w vid H) as (u & _ & _ & Hload).
    unfold checkStatus, hasCachedResult, try_catch, bind.
    destruct (cache_store w !! vid) as [c|] eqn:Hc.
    + destruct Hload as [_ Hload].
      destruct (expiresAt c <? now w) eqn:Hexp.
      * destruct Hload as [-> _]. unfold ret; simpl. split; [discriminate|].
        intros (c' & [= <-] & _ & Hle). apply Z.ltb_lt in Hexp. lia.
      * destruct Hload as [-> _]. unfold ret; simpl.
        apply Z.ltb_ge in Hexp.
        destruct (source c) eqn:Hsrc; simpl.
        -- split; [discriminate|]. intros (c' & [= <-] & Hs & _). congruence.
        -- split; [|reflexivity]. intros _. exists c. auto.
    + destruct Hload as (-> & _). unfold ret; simpl. split; [discriminate|].
      intros (c' & [=] & _).
Qed.

Lemma checkStatus_reflects_the_cache_witness :
  fst (checkStatus (js "V1") (browser 1000 two_entries))
  = Normal {| task_status := VideoPage.completed; task_progress := 100 |}
  /\ fst (checkStatus (js "V1") (browser 1001 two_entries))
     = Normal {| task_status := VideoPage.pending; task_progress := 0 |}.
Proof.
  split.
  - apply (proj2 (checkStatus_reflects_the_cache
                    (browser 1000 two_entries) (js "V1"))
             (healthy_browser _ _)).
    exists (entry_V1 0 1000).
    split; [vm_compute; reflexivity|]. split; [reflexivity|].
    vm_compute. discriminate.
  - vm_compute. reflexivity.
Defined.

(** X7.  The cache is keyed by the video alone, and the speech service
    ignores entries of source [native]: with a native entry stored for
    the video (expired or not), [transcribeVideo] sends the request even
    without [forceRefresh], and a successful reply replaces the native
    entry by a speech-recognition entry holding the reply's segments. *)
Theorem native_entry_is_ignored_and_replaced w o c resp data :
  healthy w ->
  cache_store w !! opt_videoId o = Some c ->
  source c = native ->
  fetch_reply w (length (fetch_log w)) = FetchResponse resp ->
  ok resp = true ->
  resp_body resp = BodyJson data ->
  exists w' e,
    transcribeVideo o w
    = (Normal (result_of o (body_subtitles data) false), w')
    /\ fetch_log w' = fetch_log w ++ [request_of o]
    /\ cache_store w' !! opt_videoId o = Some e
    /\ source e = speech_recognition
    /\ subtitles e = body_subtitles data.
Proof.
  intros H Hc Hsrc Hreply Hok Hbody.
  destruct (transcribe_start_healthy w o H)
    as (r & w1 & Hstart & H1 & Hclock & Hrep & Hr).
  assert (Hmiss : exists p, r = inr p).
  { revert Hstart. unfold transcribe_start, bind.
    destruct (negb (default false (opt_forceRefresh o))).
    - destruct (getCachedResult_healthy w (opt_videoId o) H)
        as (u & _ & _ & Hget).
      rewrite Hc, Hsrc in Hget. simpl in Hget.
      destruct (expiresAt c <? now w).
      + rewrite Hget. unfold ret, fetch_send. simpl. intros [= <- _]. eauto.
      + destruct Hget as [-> _]. unfold ret, fetch_send. simpl.
        intros [= <- _]. eauto.
    - unfold ret, fetch_send. simpl. intros [= <- _]. eauto. }
  destruct Hmiss as [p ->]. destruct Hr as [Hp Hlog]. subst p.
  match type of Hstart with
  | _ = (Normal (inr ?q), _) =>
      destruct (transcribe_finish_healthy q resp data w1 H1 Hok Hbody)
        as (w2 & Hfin & H2 & Henv & _ & Hstore)
  end.
  exists w2. eexists.
  unfold transcribeVideo. unfold bind at 1. rewrite Hstart.
  unfold bind at 1. unfold fetch_settle. cbn [pend_request].
  rewrite Hrep, Hreply, Hfin.
  split; [reflexivity|].
  split; [destruct Henv as (_ & _ & _ & -> & _); exact Hlog|].
  rewrite Hstore. cbn [pend_videoId]. rewrite lookup_insert_eq.
  split; [reflexivity|]. split; reflexivity.
Qed.

Lemma native_entry_is_ignored_and_replaced_witness :
  exists w' e,
    transcribeVideo (options_V1 None)
      (browser 1000 {[ js "V1" := native_V1 2000 ]})
    = (Normal (result_of (options_V1 None)
                 (Some [seg_hi; seg_there]) false), w')
    /\ cache_store w' !! js "V1" = Some e
    /\ source e = speech_recognition.
Proof.
  destruct (native_entry_is_ignored_and_replaced
              (browser 1000 {[ js "V1" := native_V1 2000 ]})
              (options_V1 None) (native_V1 2000)
              (TranscribeRoute.POST (Some (js "V1")) (Some (js "sk-test"))
                 (TranscribeRoute.Transcribed [seg_hi; seg_there]))
              {| body_error := None; body_message := None;
                 body_details := None;
                 body_subtitles := Some [seg_hi; seg_there] |}
              (healthy_browser _ _))
    as (w' & e & Hrun & _ & He & Hsrc & _).
  - vm_compute. reflexivity.
  - reflexivity.
  - reflexivity.
  - reflexivity.
  - reflexivity.
  - exists w', e. split; [exact Hrun|]. split; assumption.
Defined.

(** X8.  What a transcription stores serves the next call: on a working
    store, once a call that sent a request has returned the segments of
    a successful reply, a later call for the same video without
    [forceRefresh], made while the clock has not passed the stamped
    [expiresAt], returns the same segments with [cached = true] and sends
    no request. *)
Theorem transcription_serves_the_next_call w o p w1 resp data segs o2 :
  healthy w ->
  transcribe_start o w = (Normal (inr p), w1) ->
  fetch_reply w1 (pend_request p) = FetchResponse resp ->
  ok resp = true ->
  resp_body resp = BodyJson data ->
  body_subtitles data = Some segs ->
  opt_videoId o2 = opt_videoId o ->
  opt_forceRefresh o2 <> Some true ->
  exists w2,
    transcribeVideo o w = (Normal (result_of o (Some segs) false), w2)
    /\ (now w2 <= now_next (at_save w1) + CACHE_TTL ->
        exists w3,
          transcribeVideo o2 w2
          = (Normal (result_of o2 (Some segs) true), w3)
          /\ fetch_log w3 = fetch_log w2).
Proof.
  intros H Hstart Hreply Hok Hbody Hsegs Hvid Hforce.
  destruct (transcribe_start_healthy w o H)
    as (r & u & Hstart' & H1 & _ & _ & Hr).
  rewrite Hstart in Hstart'. injection Hstart' as <- <-.
  destruct Hr as [Hp _].
  destruct (transcribe_finish_healthy p resp data w1 H1 Hok Hbody)
    as (w2 & Hfin & H2 & Henv & Hreads & Hstore).
  exists w2. split.
  - unfold transcribeVideo. unfold bind at 1. rewrite Hstart.
    unfold bind at 1. unfold fetch_settle. rewrite Hreply, Hfin.
    rewrite Hsegs, Hp. reflexivity.
  - intros Hfresh.
    destruct (getCachedResult_healthy w2 (opt_videoId o2) H2)
      as (w3 & _ & Henv3 & Hget).
    rewrite Hstore, Hvid, Hp in Hget. cbn [pend_videoId] in Hget.
    rewrite lookup_insert_eq in Hget.
    assert (E : (expiresAt
                   (stamped (at_save w1)
                      (entry_of w1 (opt_videoId o) (body_subtitles data)
                         (default zh (opt_language o)))) <? now w2) = false).
    { apply Z.ltb_ge. exact Hfresh. }
    cbn [pend_videoId pend_language] in Hget.
    rewrite E in Hget. simpl in Hget. destruct Hget as [Hget _].
    exists w3. split; [|apply Henv3].
    unfold transcribeVideo, transcribe_start, bind.
    assert (Hf : default false (opt_forceRefresh o2) = false).
    { destruct (opt_forceRefresh o2) as [[|]|]; simpl; congruence. }
    unfold result_of. rewrite Hf. simpl. rewrite Hvid, Hget, Hsegs.
    reflexivity.
Qed.

Lemma transcription_serves_the_next_call_witness :
  exists w2 w3,
    transcribeVideo (options_V1 (Some true)) (browser 1000 ∅)
    = (Normal (result_of (options_V1 (Some true))
                 (Some [seg_hi; seg_there]) false), w2)
    /\ transcribeVideo (options_V1 None) w2
       = (Normal (result_of (options_V1 None)
                    (Some [seg_hi; seg_there]) true), w3)
    /\ fetch_log w3 = fetch_log w2.
Proof.
  destruct (transcription_serves_the_next_call
              (browser 1000 ∅) (options_V1 (Some true))
              {| pend_videoId := js "V1"; pend_language := js "zh";
                 pend_request := 0 |}
              (snd (transcribe_start (options_V1 (Some true))
                      (browser 1000 ∅)))
              (TranscribeRoute.POST (Some (js "V1")) (Some (js "sk-test"))
                 (TranscribeRoute.Transcribed [seg_hi; seg_there]))
              {| body_error := None; body_message := None;
                 body_details := None;
                 body_subtitles := Some [seg_hi; seg_there] |}
              [seg_hi; seg_there] (options_V1 None)
              (healthy_browser _ _))
    as (w2 & Hfirst & Hsecond).
  - vm_compute. reflexivity.
  - reflexivity.
  - reflexivity.
  - reflexivity.
  - reflexivity.
  - reflexivity.
  - discriminate.
  - destruct Hsecond as (w3 & Hrun & Hlog).
    + pose proof (f_equal snd Hfirst) as E. simpl in E. subst w2.
      vm_compute. discriminate.
    + exists w2, w3. split; [exact Hfirst|]. split; assumption.
Defined.

(** X9.  On a working store [clearCache] removes the entry of the video
    and nothing else, so that the next [transcribeVideo] for that video
    sends a request even without [forceRefresh]. *)
Theorem clearCache_forces_a_new_transcription w vid :
  healthy w ->
  exists w',
    clearCache vid w = (Normal tt, w')
    /\ cache_store w' = delete vid (cache_store w)
    /\ forall o,
         opt_videoId o = vid ->
         exists p w'',
           transcribe_start o w' = (Normal (inr p), w'')
           /\ fetch_log w'' = fetch_log w ++ [request_of o].
Proof.
  intros H.
  destruct (clearVideoCache_healthy w vid H) as (w' & Hrun & H' & Henv & Hs).
  exists w'. unfold clearCache, try_catch. rewrite Hrun.
  split; [reflexivity|]. split; [exact Hs|].
  intros o Hvid.
  destruct (transcribe_start_miss w' o H') as (w'' & Hstart & _ & _ & Hlog).
  { rewrite Hvid, Hs. apply lookup_delete_eq. }
  do 2 eexists. split; [exact Hstart|].
  rewrite Hlog. destruct Henv as (_ & _ & _ & -> & _). reflexivity.
Qed.

Lemma clearCache_forces_a_new_transcription_witness :
  exists w' p w'',
    clearCache (js "V1") (browser 1000 two_entries) = (Normal tt, w')
    /\ cache_store w' !! js "V2" = Some (entry_V2 2000)
    /\ transcribe_start (options_V1 None) w' = (Normal (inr p), w'').
Proof.
  destruct (clearCache_forces_a_new_transcription
              (browser 1000 two_entries) (js "V1") (healthy_browser _ _))
    as (w' & Hrun & Hs & Hnext).
  destruct (Hnext (options_V1 None) eq_refl) as (p & w'' & Hstart & _).
  exists w', p, w''. split; [exact Hrun|]. split; [|exact Hstart].
  rewrite Hs. vm_compute. reflexivity.
Defined.

(** X10.  After a failed open the service runs without its cache for the
    rest of the session: [getCachedResult] always answers [null], so
    every [transcribeVideo] sends a request, and a successful reply is
    returned with [cached = false] while nothing is stored. *)
Theorem failed_open_disables_the_cache w o resp data :
  open_failed w ->
  fetch_reply w (length (fetch_log w)) = FetchResponse resp ->
  ok resp = true ->
  resp_body resp = BodyJson data ->
  getCachedResult (opt_videoId o) w = (Normal None, w)
  /\ exists w',
       transcribeVideo o w
       = (Normal (result_of o (body_subtitles data) false), w')
       /\ fetch_log w' = fetch_log w ++ [request_of o]
       /\ cache_store w' = cache_store w
       /\ open_failed w'.
Proof.
  intros [Hwin Hinit] Hreply Hok Hbody.
  assert (Hget : forall vid, getCachedResult vid w = (Normal None, w)).
  { intros vid.
    unfold getCachedResult, try_catch, loadSubtitleCache, bind, isAvailable,
      initialize.
    rewrite Hwin. simpl. rewrite Hinit. reflexivity. }
  split; [apply Hget|].
  unfold transcribeVideo, transcribe_start. unfold bind at 1.
  unfold bind at 1.
  assert (Hc : (if negb (default false (opt_forceRefresh o))
                then getCachedResult (opt_videoId o) else ret None) w
               = (Normal None, w)).
  { destruct (negb (default false (opt_forceRefresh o)));
      [apply Hget | reflexivity]. }
  rewrite Hc. unfold bind at 1. unfold fetch_send at 1.
  unfold ret at 1. unfold bind at 1. unfold fetch_settle. simpl.
  rewrite Hreply. unfold transcribe_finish. rewrite Hok. simpl.
  unfold response_json. rewrite Hbody.
  unfold bind at 1. unfold ret at 1. unfold bind at 1.
  unfold cacheResult, cacheResult_try, try_catch, bind, Date_now,
    saveSubtitleCache, bind, isAvailable, initialize, throw, ret.
  simpl. rewrite Hwin. simpl. rewrite Hinit.
  eexists. split; [reflexivity|]. simpl.
  split; [reflexivity|]. split; [reflexivity|]. split; assumption.
Qed.

Lemma failed_open_disables_the_cache_witness :
  getCachedResult (js "V1") (browser_open_failed 1000)
  = (Normal None, browser_open_failed 1000)
  /\ exists w',
       transcribeVideo (options_V1 None) (browser_open_failed 1000)
       = (Normal (result_of (options_V1 None)
                    (Some [seg_hi; seg_there]) false), w')
       /\ cache_store w' = cache_store (browser_open_failed 1000).
Proof.
  destruct (failed_open_disables_the_cache (browser_open_failed 1000)
              (options_V1 None)
              (TranscribeRoute.POST (Some (js "V1")) (Some (js "sk-test"))
                 (TranscribeRoute.Transcribed [seg_hi; seg_there]))
              {| body_error := None; body_message := None;
                 body_details := None;
                 body_subtitles := Some [seg_hi; seg_there] |})
    as (Hget & w' & Hrun & _ & Hs & _).
  - split; reflexivity.
  - reflexivity.
  - reflexivity.
  - reflexivity.
  - split; [exact Hget|]. exists w'. split; assumption.
Defined.

End ServiceExtras.

(* ===================================================================== *)
(** * Further properties of the page's transcription trigger *)
(* ===================================================================== *)

Section VideoPageExtras.
Import Runtime VideoPage Spec2.

Lemma effect_calls s :
  transcribe_calls (effect s) = transcribe_calls s
  \/ (hasAttemptedTranscription s = false
      /\ isTranscribing s = false
      /\ hasAttemptedTranscription (effect s) = true
      /\ isTranscribing (effect s) = true
      /\ length (transcribe_calls (effect s))
         = S (length (transcribe_calls s))).
Proof.
  unfold effect. destruct (video s) as [vid|]; [|left; reflexivity].
  destruct (isSpeechRecognition s); simpl; [|left; reflexivity].
  destruct (isTranscribing s); simpl; [left; reflexivity|].
  destruct (is_completed (speechRecognitionStatus s)); simpl;
    [left; reflexivity|].
  destruct (hasAttemptedTranscription s); simpl; [left; reflexivity|].
  destruct (isNonRetryableError s); simpl; [left; reflexivity|].
  destruct (is_NO_SUBTITLES (subtitleError s)
            && is_pending (speechRecognitionStatus s));
    [|left; reflexivity].
  right. simpl. rewrite length_app. simpl.
  repeat split; lia.
Qed.

Lemma effect_attempted s :
  hasAttemptedTranscription s = true -> effect s = s.
Proof.
  intros H. unfold effect. destruct (video s); [|reflexivity].
  rewrite H, !orb_true_r. reflexivity.
Qed.

(** X11.  At most one call is in flight: while [isTranscribing] is set,
    no event other than the settlement of the pending call (not even a
    change of video or a click on "retry") makes the page call
    [transcribeVideo]. *)
Theorem one_call_in_flight s evs :
  isTranscribing s = true ->
  forallb (fun ev => negb (is_settlement ev)) evs = true ->
  isTranscribing (run s evs) = true
  /\ transcribe_calls (run s evs) = transcribe_calls s.
Proof.
  revert s. induction evs as [|ev evs IH]; intros s H Hevs; [auto|].
  simpl in Hevs. apply andb_true_iff in Hevs. destruct Hevs as [Hev Hevs].
  assert (Hstep : isTranscribing (step s ev) = true
                  /\ transcribe_calls (step s ev) = transcribe_calls s).
  { destruct ev; simpl in *; try discriminate; auto.
    rewrite (effect_waits_for_pending_call s H). auto. }
  destruct Hstep as [H' Hcalls].
  destruct (IH (step s ev) H' Hevs) as [H'' Hcalls'].
  unfold run in *. simpl. split; [exact H''|congruence].
Qed.

Lemma one_call_in_flight_witness :
  length
    (transcribe_calls
       (run (step Examples.page_ready EffectRun)
          [EffectRun; RetryClicked; EffectRun; VideoIdChanged; EffectRun]))
  = 1%nat.
Proof.
  rewrite (proj2 (one_call_in_flight (step Examples.page_ready EffectRun)
                    [EffectRun; RetryClicked; EffectRun; VideoIdChanged;
                     EffectRun] eq_refl eq_refl)).
  reflexivity.
Defined.

(** X12.  One attempt per video unless the user asks: over any sequence
    of events without a click on "retry" and without a change of video,
    the page calls [transcribeVideo] at most once, and not at all when an
    attempt has been made before, whatever its outcome. *)
Theorem no_second_attempt_without_reset s evs :
  forallb (fun ev => negb (is_reset ev)) evs = true ->
  (hasAttemptedTranscription s = true ->
   transcribe_calls (run s evs) = transcribe_calls s)
  /\ (length (transcribe_calls (run s evs))
      <= S (length (transcribe_calls s)))%nat.
Proof.
  intros Hevs.
  assert (Hkeep : forall evs s,
             forallb (fun ev => negb (is_reset ev)) evs = true ->
             hasAttemptedTranscription s = true ->
             hasAttemptedTranscription (run s evs) = true
             /\ transcribe_calls (run s evs) = transcribe_calls s).
  { clear. induction evs as [|ev evs IH]; intros s Hevs H; [auto|].
    simpl in Hevs. apply andb_true_iff in Hevs. destruct Hevs as [Hev Hevs].
    assert (Hstep : hasAttemptedTranscription (step s ev) = true
                    /\ transcribe_calls (step s ev) = transcribe_calls s).
    { destruct ev; simpl in *; try discriminate; auto.
      rewrite (effect_attempted s H). auto. }
    destruct Hstep as [H' Hcalls].
    destruct (IH (step s ev) Hevs H') as [H'' Hcalls'].
    unfold run in *. simpl. split; [exact H''|congruence]. }
  split; [intros H; apply Hkeep; assumption|].
  revert s. induction evs as [|ev evs IH]; intros s; [simpl; lia|].
  simpl in Hevs. apply andb_true_iff in Hevs. destruct Hevs as [Hev Hevs].
  change (run s (ev :: evs)) with (run (step s ev) evs).
  assert (Hcase : transcribe_calls (step s ev) = transcribe_calls s
                  \/ (hasAttemptedTranscription (step s ev) = true
                      /\ length (transcribe_calls (step s ev))
                         = S (length (transcribe_calls s)))).
  { destruct ev; simpl in *; try discriminate; auto.
    destruct (effect_calls s) as [E|(_ & _ & E1 & _ & E2)]; auto. }
  destruct Hcase as [E|[Hatt E]].
  - specialize (IH Hevs (step s ev)). rewrite E in IH. exact IH.
  - destruct (Hkeep evs (step s ev) Hevs Hatt) as [_ E']. rewrite E', E. lia.
Qed.

Lemma no_second_attempt_without_reset_witness :
  (length
     (transcribe_calls
        (run Examples.page_ready
           [EffectRun;
            TranscribeRejected (Error (js "network down"));
            EffectRun; DismissClicked; EffectRun]))
   <= 1)%nat.
Proof.
  exact (proj2 (no_second_attempt_without_reset Examples.page_ready
                  [EffectRun;
                   TranscribeRejected (Error (js "network down"));
                   EffectRun; DismissClicked; EffectRun] eq_refl)).
Defined.

(** X13.  The retry button works after a retryable failure: when the
    trigger's conditions hold, an attempt that is rejected with an error
    the page does not classify as non-retryable can be repeated by
    clicking "retry", which makes the page call [transcribeVideo] a
    second time, for the same video, with language ['zh'] and without
    [forceRefresh]. *)
Theorem retry_repeats_a_retryable_failure s vid err :
  ready_to_transcribe s ->
  video s = Some vid ->
  hasAttemptedTranscription s = false ->
  nonRetryable err = false ->
  let call :=
    {| SpeechRecognition.opt_videoId := vid;
       SpeechRecognition.opt_audioUrl := audioUrl_of vid;
       SpeechRecognition.opt_language := Some (js "zh");
       SpeechRecognition.opt_forceRefresh := None |} in
  transcribe_calls
    (run s [EffectRun; TranscribeRejected err; EffectRun])
  = transcribe_calls s ++ [call]
  /\ transcribe_calls
       (run s [EffectRun; TranscribeRejected err; RetryClicked; EffectRun])
     = transcribe_calls s ++ [call; call].
Proof.
  intros (_ & Hsr & Herr & Hst & Htr & Hnr) Hvid Hatt Hclass call.
  destruct s as [v sr e st tr te att nr calls]. simpl in *. subst.
  unfold run. cbn [fold_left step]. unfold rejected, effect. simpl.
  rewrite Hclass. simpl. rewrite <- app_assoc. split; reflexivity.
Qed.

Lemma retry_repeats_a_retryable_failure_witness :
  length
    (transcribe_calls
       (run Examples.page_ready
          [EffectRun; TranscribeRejected (Error (js "network down"));
           RetryClicked; EffectRun]))
  = 2%nat.
Proof.
  destruct (retry_repeats_a_retryable_failure Examples.page_ready (js "V1")
              (Error (js "network down")))
    as [_ Hretry].
  - unfold ready_to_transcribe. simpl. repeat split; eauto.
  - reflexivity.
  - reflexivity.
  - reflexivity.
  - rewrite Hretry. reflexivity.
Defined.

End VideoPageExtras.

(* ===================================================================== *)
(** * Further properties of the parsers and of the lookups *)
(* ===================================================================== *)

Section ParserExtras.
Import SubtitleParser SubtitleLookup Whisper UseSubtitles Runtime.
Import Spec Spec2.

Lemma digits_inj d1 : forall d2, digits d1 = digits d2 -> d1 = d2.
Proof.
  induction d1; intros d2 H; destruct d2; simpl in H;
    try discriminate; try reflexivity;
    injection H as H; f_equal; apply IHd1; exact H.
Qed.

Lemma index_toString_inj i j : index_toString i = index_toString j -> i = j.
Proof.
  unfold index_toString. intros H.
  apply DecimalNat.Unsigned.to_uint_inj, digits_inj, H.
Qed.

Lemma numbered_distinct l i j a b :
  numbered l -> l !! i = Some a -> l !! j = Some b -> id a = id b -> i = j.
Proof.
  intros Hn Ha Hb Hid. rewrite (Hn i a Ha), (Hn j b Hb) in Hid.
  apply app_inv_head in Hid. apply index_toString_inj, Hid.
Qed.

Lemma find_by_id (l : list SubtitleSegment) :
  (forall i j a b,
      l !! i = Some a -> l !! j = Some b -> id a = id b -> i = j) ->
  forall i s, l !! i = Some s -> getSubtitleById (id s) l = Some s.
Proof.
  unfold getSubtitleById.
  induction l as [|x l IH]; intros Hd i s Hi; [discriminate|].
  destruct i as [|i]; simpl in *.
  - injection Hi as ->. rewrite bool_decide_eq_true_2; reflexivity.
  - rewrite bool_decide_eq_false_2.
    + apply (IH (fun i j a b Ha Hb E =>
                   eq_add_S _ _ (Hd (S i) (S j) a b Ha Hb E)) i s Hi).
    + intros E. specialize (Hd 0%nat (S i) x s eq_refl Hi E). discriminate.
Qed.

Lemma numbered_parseSubtitles raw vid : numbered (parseSubtitles raw vid).
Proof.
  intros i s Hi. destruct raw as [items|v]; simpl in Hi; [|discriminate].
  rewrite list_lookup_imap in Hi.
  destruct (List.filter keep items !! i); simpl in Hi; [|discriminate].
  injection Hi as <-. reflexivity.
Qed.

Lemma numbered_parseWhisperResponse segs vid lang :
  numbered (parseWhisperResponse segs vid lang).
Proof.
  intros i s Hi. destruct segs as [segs|]; simpl in Hi; [|discriminate].
  rewrite list_lookup_imap in Hi.
  destruct (segs !! i); simpl in Hi; [|discriminate].
  injection Hi as <-. reflexivity.
Qed.

(** X14.  The ids the parsers give are keys: in the output of
    [parseSubtitles] and of [parseWhisperResponse] no two segments share
    an id, so [getSubtitleById] called with the id of a segment of the
    list returns that very segment. *)
Theorem getSubtitleById_finds_each_parsed_segment raw segs vid lang :
  (forall i s,
      parseSubtitles raw vid !! i = Some s ->
      getSubtitleById (id s) (parseSubtitles raw vid) = Some s)
  /\ (forall i s,
        parseWhisperResponse segs vid lang !! i = Some s ->
        getSubtitleById (id s) (parseWhisperResponse segs vid lang)
        = Some s)
  /\ NoDup (id <$> parseSubtitles raw vid)
  /\ NoDup (id <$> parseWhisperResponse segs vid lang).
Proof.
  assert (Hnodup : forall l, numbered l -> NoDup (id <$> l)).
  { intros l Hn. apply NoDup_alt. intros i j x Hi Hj.
    rewrite list_lookup_fmap in Hi, Hj.
    destruct (l !! i) as [a|] eqn:Ha; [|discriminate].
    destruct (l !! j) as [b|] eqn:Hb; [|discriminate].
    simpl in Hi, Hj. apply (numbered_distinct l i j a b Hn Ha Hb).
    congruence. }
  split; [|split; [|split]].
  - apply find_by_id. intros i j a b.
    apply numbered_distinct, numbered_parseSubtitles.
  - apply find_by_id. intros i j a b.
    apply numbered_distinct, numbered_parseWhisperResponse.
  - apply Hnodup, numbered_parseSubtitles.
  - apply Hnodup, numbered_parseWhisperResponse.
Qed.

(** X15.  The id the sync hook highlights denotes the active segment:
    on a list numbered by one of the parsers, [activeSegmentId] is
    [null] exactly when no segment is active, and otherwise
    [getSubtitleById] maps it back to the segment [findActiveSubtitle]
    returned. *)
Theorem activeSegmentId_denotes_the_active_segment t l :
  numbered l ->
  (activeSegmentId t l = None <-> findActiveSubtitle t l = None)
  /\ forall sid,
       activeSegmentId t l = Some sid ->
       getSubtitleById sid l = findActiveSubtitle t l.
Proof.
  intros Hn. unfold activeSegmentId.
  destruct (findActiveSubtitle t l) as [s|] eqn:Hfind.
  - assert (Hin : exists i, l !! i = Some s).
    { unfold findActiveSubtitle in Hfind. apply find_some in Hfind.
      destruct Hfind as [Hin _].
      apply list_elem_of_In, list_elem_of_lookup in Hin. exact Hin. }
    destruct Hin as [i Hi]. pose proof (Hn i s Hi) as Hid.
    destruct (id s) as [|c r] eqn:E; [discriminate|].
    split; [split; discriminate|].
    intros sid [= <-]. rewrite <- E.
    apply (find_by_id l (fun i j a b => numbered_distinct l i j a b Hn) i s Hi).
  - split; [tauto|]. discriminate.
Qed.

Lemma activeSegmentId_denotes_the_active_segment_witness :
  getSubtitleById (js "subtitle-1")
    (parseWhisperResponse
       (Some [ {| seg_start := 0; seg_end := 5; seg_text := js "hi" |};
               {| seg_start := 5; seg_end := 10; seg_text := js " there " |} ])
       (js "V1") (js "zh"))
  = findActiveSubtitle 8
      (parseWhisperResponse
         (Some [ {| seg_start := 0; seg_end := 5; seg_text := js "hi" |};
                 {| seg_start := 5; seg_end := 10;
                    seg_text := js " there " |} ])
         (js "V1") (js "zh")).
Proof.
  destruct (activeSegmentId_denotes_the_active_segment 8
              (parseWhisperResponse
                 (Some [ {| seg_start := 0; seg_end := 5;
                            seg_text := js "hi" |};
                         {| seg_start := 5; seg_end := 10;
                            seg_text := js " there " |} ])
                 (js "V1") (js "zh"))
              (numbered_parseWhisperResponse _ _ _)) as [_ Hback].
  apply Hback. reflexivity.
Defined.

Lemma filter_all_kept {A} (P : A -> bool) (l : list A) :
  Forall (fun x => P x = true) l -> List.filter P l = l.
Proof.
  induction 1 as [|x l Hx _ IH]; simpl; [reflexivity|].
  rewrite Hx, IH. reflexivity.
Qed.

Lemma filter_drops_some {A} (P : A -> bool) (l : list A) :
  ~ Forall (fun x => P x = true) l ->
  (length (List.filter P l) < length l)%nat.
Proof.
  induction l as [|x l IH]; intros Hn.
  - exfalso. apply Hn. constructor.
  - simpl. destruct (P x) eqn:Hx; simpl.
    + apply -> Nat.succ_lt_mono. apply IH. intros Hall. apply Hn.
      constructor; assumption.
    + pose proof (List.filter_length_le P l). lia.
Qed.

(** X16.  [parseWhisperResponse] numbers and trims like
    [parseSubtitles] but drops nothing: it emits one segment per
    transcription segment; its output is the output of [parseSubtitles]
    on the same records (up to the [language] property) when every
    record passes the parser's rules, and is strictly longer otherwise,
    so segments with inverted timing or blank text reach the cache. *)
Theorem whisper_segments_are_not_filtered segs vid lang :
  length (parseWhisperResponse (Some segs) vid lang) = length segs
  /\ (Forall (fun g => keep (as_item g) = true) segs ->
      without_language <$> parseWhisperResponse (Some segs) vid lang
      = parseSubtitles (RawArray (as_item <$> segs)) vid)
  /\ (~ Forall (fun g => keep (as_item g) = true) segs ->
      (length (parseSubtitles (RawArray (as_item <$> segs)) vid)
       < length (parseWhisperResponse (Some segs) vid lang))%nat).
Proof.
  split; [apply length_imap|]. split.
  - intros Hall. unfold parseWhisperResponse, parseSubtitles.
    rewrite filter_all_kept
      by (apply Forall_fmap; exact Hall).
    rewrite imap_fmap, fmap_imap. apply imap_ext.
    intros i x _. reflexivity.
  - intros Hn. unfold parseWhisperResponse, parseSubtitles.
    rewrite !length_imap.
    pose proof (filter_drops_some keep (as_item <$> segs)) as Hlt.
    rewrite length_fmap in Hlt. apply Hlt.
    intros Hall. apply Hn. apply Forall_fmap in Hall. exact Hall.
Qed.

Lemma whisper_segments_are_not_filtered_witness :
  (length
     (parseSubtitles
        (RawArray
           (as_item <$>
              [ {| seg_start := 0; seg_end := 5; seg_text := js "hi" |};
                {| seg_start := 5; seg_end := 5; seg_text := js " " |} ]))
        (js "V1"))
   < length
       (parseWhisperResponse
          (Some [ {| seg_start := 0; seg_end := 5; seg_text := js "hi" |};
                  {| seg_start := 5; seg_end := 5; seg_text := js " " |} ])
          (js "V1") (js "zh")))%nat.
Proof.
  apply (proj2 (proj2 (whisper_segments_are_not_filtered _ _ _))).
  intros Hall. inversion Hall as [|? ? _ Hrest]; subst.
  inversion Hrest as [|? ? Hbad _]; subst. discriminate Hbad.
Defined.

Lemma item_checks_record item :
  item_checks (ElemRecord item) = Normal true <-> well_typed item.
Proof.
  destruct item as [f t c]. unfold well_typed. simpl. split.
  - intros [= H]. apply andb_true_iff in H. destruct H as [H Hc].
    apply andb_true_iff in H. destruct H as [Hf Ht].
    destruct f; try discriminate. destruct t; try discriminate.
    destruct c; try discriminate. repeat split; eexists; reflexivity.
  - intros ((x & ->) & (y & ->) & (u & ->)). reflexivity.
Qed.

Lemma item_checks_true e :
  item_checks e = Normal true
  <-> exists item, e = ElemRecord item /\ well_typed item.
Proof.
  destruct e as [item|v].
  - rewrite item_checks_record. split; [eauto|].
    intros (i & [= <-] & H). exact H.
  - split.
    + simpl. destruct v; simpl; discriminate.
    + intros (i & [=] & _).
Qed.

Lemma item_checks_throw e err :
  item_checks e = Throw err <-> e = ElemValue JNull /\ err = TypeError.
Proof.
  destruct e as [item|v]; simpl.
  - split; [discriminate | intros [[=] _]].
  - destruct v; simpl; split; try discriminate;
      try (intros [[=] _]; fail).
    + intros [= <-]. auto.
    + intros [_ ->]. reflexivity.
Qed.

Lemma every_true l :
  every l = Normal true
  <-> Forall (fun e => exists item, e = ElemRecord item /\ well_typed item) l.
Proof.
  induction l as [|e l IH]; simpl.
  - split; [constructor | reflexivity].
  - destruct (item_checks e) as [[|]|err] eqn:He.
    + rewrite IH. apply item_checks_true in He. split.
      * intros H. constructor; assumption.
      * intros H. inversion H. assumption.
    + split; [discriminate|]. intros H. inversion H as [|? ? Hx _]; subst.
      apply item_checks_true in Hx. congruence.
    + split; [discriminate|]. intros H. inversion H as [|? ? Hx _]; subst.
      apply item_checks_true in Hx. congruence.
Qed.

Lemma every_throw l err :
  every l = Throw err
  <-> err = TypeError
      /\ exists pre post,
           l = pre ++ ElemValue JNull :: post
           /\ Forall (fun e => exists item,
                          e = ElemRecord item /\ well_typed item) pre.
Proof.
  induction l as [|e l IH]; simpl.
  - split; [discriminate|]. intros (_ & pre & post & E & _).
    destruct pre; discriminate.
  - destruct (item_checks e) as [[|]|err'] eqn:He.
    + rewrite IH. apply item_checks_true in He. split.
      * intros (-> & pre & post & -> & Hpre). split; [reflexivity|].
        exists (e :: pre), post. split; [reflexivity|].
        constructor; assumption.
      * intros (-> & pre & post & E & Hpre). split; [reflexivity|].
        destruct pre as [|x pre]; simpl in E; injection E as -> ->.
        -- destruct He as (i & [=] & _).
        -- inversion Hpre; subst. exists pre, post. split; auto.
    + split; [discriminate|]. intros (_ & pre & post & E & Hpre).
      destruct pre as [|x pre]; simpl in E; injection E as -> ->.
      * simpl in He. discriminate.
      * inversion Hpre as [|? ? Hx _]; subst.
        apply item_checks_true in Hx. congruence.
    + apply item_checks_throw in He. destruct He as [-> ->]. split.
      * intros [= <-]. split; [reflexivity|].
        exists [], l. split; [reflexivity | constructor].
      * intros (-> & _). reflexivity.
Qed.

(** X17.  [isValidSubtitleData] answers [true] exactly for a non-empty
    array whose elements are all objects with a number [from], a number
    [to] and a string [content]; it throws a [TypeError] exactly when a
    [null] element comes before any element that fails the test (since
    [typeof null] is ['object']); and data it accepts lose items in
    [parseSubtitles] only to the timing and blank-text rules. *)
Theorem isValidSubtitleData_verdicts l :
  (isValidSubtitleData (DataArray l) = Normal true
   <-> l <> []
       /\ Forall (fun e => exists item,
                      e = ElemRecord item /\ well_typed item) l)
  /\ (forall err,
        isValidSubtitleData (DataArray l) = Throw err
        <-> err = TypeError
            /\ exists pre post,
                 l = pre ++ ElemValue JNull :: post
                 /\ Forall (fun e => exists item,
                                e = ElemRecord item /\ well_typed item) pre)
  /\ (forall items,
        l = ElemRecord <$> items ->
        isValidSubtitleData (DataArray l) = Normal true ->
        forall item,
          In item items ->
          keep item = false
          <-> to_le_from item \/ from_negative item
              \/ ~ has_text (item_content item)).
Proof.
  assert (Hthrow : forall err,
             isValidSubtitleData (DataArray l) = Throw err
             <-> every l = Throw err).
  { intros err. simpl. destruct l; simpl; [split; discriminate|tauto]. }
  assert (Htrue : isValidSubtitleData (DataArray l) = Normal true
                  <-> l <> [] /\ every l = Normal true).
  { simpl. destruct l; simpl.
    - split; [discriminate | intros [H _]; congruence].
    - split; [intros H; split; [discriminate | exact H] | tauto]. }
  split; [rewrite Htrue, every_true; reflexivity|].
  split; [intros err; rewrite Hthrow; apply every_throw|].
  intros items -> Hvalid item Hin.
  apply Htrue in Hvalid. destruct Hvalid as [_ Hall].
  apply every_true in Hall. rewrite Forall_forall in Hall.
  destruct (Hall (ElemRecord item)) as (i & [= <-] & Hx & Hy & Hc).
  { apply list_elem_of_fmap. exists item. split; [reflexivity|].
    apply list_elem_of_In. exact Hin. }
  rewrite keep_false_violates. unfold violates, numeric. split.
  - intros [H|[H|H]]; [contradiction | contradiction | exact H].
  - intros H. right. right. exact H.
Qed.

Lemma isValidSubtitleData_verdicts_witness :
  isValidSubtitleData
    (DataArray
       [ ElemRecord {| item_from := JNumber 0; item_to := JNumber 2;
                       item_content := JString (js "a") |};
         ElemValue JNull ])
  = Throw TypeError.
Proof.
  apply (proj1 (proj2 (isValidSubtitleData_verdicts _))).
  split; [reflexivity|].
  exists [ ElemRecord {| item_from := JNumber 0; item_to := JNumber 2;
                         item_content := JString (js "a") |} ], [].
  split; [reflexivity|]. constructor; [|constructor].
  eexists. split; [reflexivity|]. unfold well_typed. simpl.
  repeat split; eexists; reflexivity.
Defined.

End ParserExtras.

(* ===================================================================== *)
(** * Properties of the subtitle hook and of the highlight set *)
(* ===================================================================== *)

Section HookExtras.
Import Runtime IndexedDBStorage SpeechRecognition UseSubtitles UseHighlights.
Import Spec Spec2 Examples Examples2.

Lemma hasCachedResult_total vid w :
  exists b w',
    hasCachedResult vid w = (Normal b, w')
    /\ fetch_log w' = fetch_log w /\ fetch_reply w' = fetch_reply w.
Proof.
  unfold hasCachedResult, loadSubtitleCache, bind, isAvailable, initialize,
    this_db, try_catch, bind, Date_now, db_get, db_delete, bind,
    idb_request, get_store, put_store, ret.
  cases; simplify_eq; simpl in *; eauto.
Qed.

Lemma hasCachedResult_healthy w vid :
  healthy w ->
  exists w',
    healthy w' /\ same_env w w'
    /\ match cache_store w !! vid with
       | None =>
           hasCachedResult vid w = (Normal false, w')
           /\ cache_store w' = cache_store w
           /\ clock_reads w' = clock_reads w
       | Some c =>
           clock_reads w' = S (clock_reads w)
           /\ if expiresAt c <? now w
              then hasCachedResult vid w = (Normal false, w')
                   /\ cache_store w' = delete vid (cache_store w)
              else hasCachedResult vid w
                   = (Normal (Source_eqb (source c) speech_recognition), w')
                   /\ cache_store w' = cache_store w
       end.
Proof.
  intros H.
  destruct (loadSubtitleCache_healthy w vid H) as (w' & H' & Henv & Hload).
  exists w'. split; [exact H'|]. split; [exact Henv|].
  unfold hasCachedResult, try_catch, bind.
  destruct (cache_store w !! vid) as [c|].
  - destruct Hload as [Hreads Hload]. split; [exact Hreads|].
    destruct (expiresAt c <? now w).
    + destruct Hload as [-> Hs]. split; [reflexivity | exact Hs].
    + destruct Hload as [-> Hs]. split; [reflexivity | exact Hs].
  - destruct Hload as (-> & Hs & Hr). split; [reflexivity|]. auto.
Qed.

Lemma fallback_ends_in_hit_or_miss_total vid h w :
  exists h' w',
    fallbackToSpeechRecognition vid h w = (Normal h', w')
    /\ fetch_log w' = fetch_log w
    /\ isSpeechRecognition h' = true
    /\ ((exists subs, h' = fallback_hit subs (fallback_started h))
        \/ h' = fallback_miss (fallback_started h)).
Proof.
  unfold fallbackToSpeechRecognition, try_catch. unfold bind at 1.
  destruct (hasCachedResult_total vid w) as (b & w1 & -> & Hlog1 & _).
  unfold bind at 1.
  destruct b.
  - destruct (getCachedResult_total vid w1) as (r & w2 & -> & Hlog2 & _).
    destruct r as [subs|]; unfold ret; do 2 eexists;
      (split; [reflexivity|]); (split; [congruence|]);
      (split; [reflexivity|]); eauto.
  - unfold ret. do 2 eexists. split; [reflexivity|].
    split; [exact Hlog1|]. split; [reflexivity|]. auto.
Qed.

(** X18.  The speech fallback of the hook cannot end in [failed]: since
    the two service calls never throw, [fallbackToSpeechRecognition]
    always ends in one of two states, "cached subtitles shown"
    ([completed], progress 100) or "transcription needed" ([pending],
    error [NO_SUBTITLES]), with [isSpeechRecognition] set and without
    sending a request.  On a working store it shows the cached segments
    when a speech entry is unexpired at both of its reads, and asks for a
    transcription when there is no entry or when the entry expires
    between the two reads. *)
Theorem fallback_ends_in_hit_or_miss vid h w :
  (exists h' w',
      fallbackToSpeechRecognition vid h w = (Normal h', w')
      /\ fetch_log w' = fetch_log w
      /\ isSpeechRecognition h' = true
      /\ ((exists subs, h' = fallback_hit subs (fallback_started h))
          \/ h' = fallback_miss (fallback_started h)))
  /\ (healthy w ->
      (cache_store w !! vid = None ->
       fst (fallbackToSpeechRecognition vid h w)
       = Normal (fallback_miss (fallback_started h)))
      /\ (forall c segs,
            cache_store w !! vid = Some c ->
            source c = speech_recognition ->
            Runtime.subtitles c = Some segs ->
            now w <= expiresAt c ->
            (now_next w <= expiresAt c ->
             fst (fallbackToSpeechRecognition vid h w)
             = Normal (fallback_hit segs (fallback_started h)))
            /\ (expiresAt c < now_next w ->
                fst (fallbackToSpeechRecognition vid h w)
                = Normal (fallback_miss (fallback_started h))))).
Proof.
  split; [apply fallback_ends_in_hit_or_miss_total|].
  intros H. split.
    + intros Hc.
      destruct (hasCachedResult_healthy w vid H) as (w1 & _ & _ & Hhas).
      rewrite Hc in Hhas. destruct Hhas as (Hhas & _).
      unfold fallbackToSpeechRecognition, try_catch. unfold bind at 1.
      rewrite Hhas. reflexivity.
    + intros c segs Hc Hsrc Hsubs Hnow.
      destruct (hasCachedResult_healthy w vid H)
        as (w1 & H1 & Henv & Hhas).
      rewrite Hc in Hhas. destruct Hhas as [Hreads Hhas].
      assert (E : (expiresAt c <? now w) = false) by (apply Z.ltb_ge; lia).
      rewrite E, Hsrc in Hhas. simpl in Hhas. destruct Hhas as [Hhas Hs1].
      destruct (getCachedResult_healthy w1 vid H1) as (w2 & _ & _ & Hget).
      rewrite Hs1, Hc in Hget.
      assert (Hn1 : now w1 = now_next w).
      { unfold now, now_next. destruct Henv as (_ & -> & _).
        rewrite Hreads. reflexivity. }
      rewrite Hn1, Hsrc, Hsubs in Hget. simpl in Hget.
      split; intros Hlater;
        unfold fallbackToSpeechRecognition, try_catch; unfold bind at 1;
        rewrite Hhas; unfold bind at 1; cbv iota.
      * assert (E2 : (expiresAt c <? now_next w) = false)
          by (apply Z.ltb_ge; lia).
        rewrite E2 in Hget. destruct Hget as [-> _]. reflexivity.
      * assert (E2 : (expiresAt c <? now_next w) = true)
          by (apply Z.ltb_lt; lia).
        rewrite E2 in Hget. rewrite Hget. reflexivity.
Qed.

Lemma fallback_ends_in_hit_or_miss_witness :
  fst (fallbackToSpeechRecognition (js "V1")
         {| subtitles := [seg_overlap]; isLoading := true; error := None;
            isSpeechRecognition := false;
            speechRecognitionStatus := VideoPage.idle;
            speechRecognitionProgress := 0 |}
         (browser 1000 {[ js "V1" := entry_V1 0 2000 ]}))
  = Normal {| subtitles := [seg_hi; seg_there]; isLoading := false;
              error := None; isSpeechRecognition := true;
              speechRecognitionStatus := VideoPage.completed;
              speechRecognitionProgress := 100 |}.
Proof.
  refine (proj1 (proj2 (proj2 (fallback_ends_in_hit_or_miss _ _ _)
                          (healthy_browser _ _))
                   (entry_V1 0 2000) [seg_hi; seg_there] _ eq_refl eq_refl _)
            _).
  - vm_compute. reflexivity.
  - vm_compute. discriminate.
  - vm_compute. discriminate.
Defined.

(** X19.  [fetchSubtitles] with a video id and a cid never throws,
    never ends in [failed] and always clears [isLoading].  When it ends
    in [pending] (no native subtitles and nothing usable in the cache),
    the [subtitles] held before the call are still there, with error
    [NO_SUBTITLES] and [isSpeechRecognition] set; any other rejection of
    the native fetch empties [subtitles] and records the error's code, or
    [SUBTITLE_FETCH_FAILED] when it has none. *)
Theorem fetchSubtitles_outcomes v vid c cid native h w :
  exists h' w',
    fetchSubtitles (Some (v :: vid)) (Some (c :: cid)) native h w
    = (Normal h', w')
    /\ fetch_log w' = fetch_log w
    /\ isLoading h' = false
    /\ speechRecognitionStatus h' <> VideoPage.failed
    /\ (speechRecognitionStatus h' = VideoPage.pending ->
        subtitles h' = subtitles h
        /\ error h' = Some (js "NO_SUBTITLES")
        /\ isSpeechRecognition h' = true)
    /\ (forall code,
          native = NativeRejected code ->
          is_NO_SUBTITLES code = false ->
          subtitles h' = []
          /\ error h' = Some (or_else code (js "SUBTITLE_FETCH_FAILED"))
          /\ speechRecognitionStatus h' = VideoPage.idle).
Proof.
  unfold fetchSubtitles. destruct native as [subs|code].
  - unfold ret. do 2 eexists. split; [reflexivity|]. simpl.
    split; [reflexivity|]. split; [reflexivity|]. split; [discriminate|].
    split; [intros E; discriminate E | intros code E; discriminate E].
  - destruct (is_NO_SUBTITLES code) eqn:Hcode.
    + destruct (fallback_ends_in_hit_or_miss_total (v :: vid)
                  (fetch_started h) w)
        as (h' & w' & Hrun & Hlog & Hsr & Hcase).
      exists h', w'. split; [exact Hrun|]. split; [exact Hlog|].
      destruct Hcase as [[subs ->]| ->]; simpl.
      * split; [reflexivity|]. split; [discriminate|].
        split; [intros E; discriminate E|].
        intros code' [= <-] Hn. congruence.
      * split; [reflexivity|]. split; [discriminate|].
        split; [intros _; repeat split|].
        intros code' [= <-] Hn. congruence.
    + unfold ret. do 2 eexists. split; [reflexivity|]. simpl.
      split; [reflexivity|]. split; [reflexivity|]. split; [discriminate|].
      split; [intros E; discriminate E|].
      intros code' [= <-] _. repeat split.
Qed.

Lemma fetchSubtitles_outcomes_witness :
  exists h',
    fst (fetchSubtitles (Some (js "V2")) (Some (js "77"))
           (NativeRejected (Some (js "NO_SUBTITLES")))
           {| subtitles := [seg_hi]; isLoading := false; error := None;
              isSpeechRecognition := false;
              speechRecognitionStatus := VideoPage.idle;
              speechRecognitionProgress := 0 |}
           (browser 1000 ∅))
    = Normal h'
    /\ subtitles h' = [seg_hi]
    /\ error h' = Some (js "NO_SUBTITLES").
Proof.
  destruct (fetchSubtitles_outcomes 86%N (js "2") 55%N (js "7")
              (NativeRejected (Some (js "NO_SUBTITLES")))
              {| subtitles := [seg_hi]; isLoading := false; error := None;
                 isSpeechRecognition := false;
                 speechRecognitionStatus := VideoPage.idle;
                 speechRecognitionProgress := 0 |}
              (browser 1000 ∅))
    as (h' & w' & Hrun & _ & _ & _ & Hpending & _).
  exists h'. split; [change (js "V2") with (86%N :: js "2");
                     change (js "77") with (55%N :: js "7");
                     rewrite Hrun; reflexivity|].
  assert (E : speechRecognitionStatus h' = VideoPage.pending).
  { pose proof (f_equal fst Hrun) as E. vm_compute in E.
    injection E as <-. reflexivity. }
  destruct (Hpending E) as (Hs & He & _). split; assumption.
Defined.

End HookExtras.

Section HighlightExtras.
Import UseHighlights.

(** X20.  [toggleHighlight] flips the membership of the segment and of
    no other: toggling twice gives the set back, and the highlight count
    moves by exactly one. *)
Theorem toggleHighlight_flips (sid : jsstring) (hs : gset jsstring) :
  isHighlighted sid (toggleHighlight sid hs) = negb (isHighlighted sid hs)
  /\ (forall other,
        other <> sid ->
        isHighlighted other (toggleHighlight sid hs)
        = isHighlighted other hs)
  /\ toggleHighlight sid (toggleHighlight sid hs) = hs
  /\ highlightCount (toggleHighlight sid hs)
     = if isHighlighted sid hs then pred (highlightCount hs)
       else S (highlightCount hs).
Proof.
  unfold toggleHighlight, isHighlighted, highlightCount.
  destruct (decide (sid ∈ hs)) as [Hin|Hnin].
  - rewrite (bool_decide_eq_true_2 _ Hin).
    assert (Hout : sid ∉ hs ∖ {[sid]}) by set_solver.
    rewrite (bool_decide_eq_false_2 _ Hout). simpl.
    split; [reflexivity|]. split.
    + intros other Hne. apply bool_decide_ext. set_solver.
    + split.
      * apply set_eq. intros x. destruct (decide (x = sid)); set_solver.
      * rewrite size_difference by set_solver. rewrite size_singleton. lia.
  - rewrite (bool_decide_eq_false_2 _ Hnin).
    assert (Hin : sid ∈ hs ∪ {[sid]}) by set_solver.
    rewrite (bool_decide_eq_true_2 _ Hin). simpl.
    split; [reflexivity|]. split.
    + intros other Hne. apply bool_decide_ext. set_solver.
    + split.
      * set_solver.
      * rewrite size_union by set_solver. rewrite size_singleton. lia.
Qed.

End HighlightExtras.

(* ===================================================================== *)
(** * The route's failures, seen from the client and the page *)
(* ===================================================================== *)

Section RouteExtras.
Import Runtime SpeechRecognition TranscribeRoute VideoPage.

(** X21.  Every failure raised inside the route's work that is not an
    OpenAI API error (audio download failed, audio too large, video too
    long, ...) is answered with status 500, which the client turns into
    an error with code [TRANSCRIPTION_FAILED], the route's message
    followed by the failure's text as details, and [retryable = false];
    the page then sets its non-retryable flag and shows that message.
    An OpenAI API error keeps its own status (500 when it has none), and
    is marked retryable exactly when that status is neither 500 nor
    501. *)
Theorem route_failures_as_seen_by_the_page videoId key msg p w s :
  falsy (Some videoId) = false ->
  falsy (Some key) = false ->
  let err :=
    {| message :=
         js "Failed to transcribe audio"
         ++ match msg with
            | [] => []
            | _ :: _ => msg_details ++ msg
            end;
       code := Some (js "TRANSCRIPTION_FAILED");
       status := Some 500;
       retryable := Some false |} in
  transcribe_finish p
    (FetchResponse (POST (Some videoId) (Some key) (OtherError msg))) w
  = (Throw err, w)
  /\ isNonRetryableError (step s (TranscribeRejected err)) = true
  /\ transcriptionError (step s (TranscribeRejected err))
     = Some (message err)
  /\ forall st,
       ok (POST (Some videoId) (Some key) (OpenAI_APIError st msg)) = false ->
       exists e,
         transcribe_finish p
           (FetchResponse
              (POST (Some videoId) (Some key) (OpenAI_APIError st msg))) w
         = (Throw e, w)
         /\ status e = Some (status_or_500 st)
         /\ code e = Some (js "API_ERROR")
         /\ retryable e
            = Some (negb (status_or_500 st =? 501)
                    && negb (status_or_500 st =? 500)).
Proof.
  intros Hvid Hkey err. unfold POST. rewrite Hvid, Hkey.
  split; [|split; [|split]].
  - unfold transcribe_finish, response_json, error_of_reply, err. simpl.
    destruct msg; reflexivity.
  - reflexivity.
  - unfold err. simpl. reflexivity.
  - intros st Hok. eexists. split; [|split; [|split]].
    + unfold transcribe_finish. rewrite Hok. simpl. reflexivity.
    + reflexivity.
    + reflexivity.
    + reflexivity.
Qed.

Lemma route_failures_as_seen_by_the_page_witness :
  isNonRetryableError
    (step Examples.page_ready
       (TranscribeRejected
          {| message :=
               js "Failed to transcribe audio" ++ msg_details
               ++ js "No audio stream found";
             code := Some (js "TRANSCRIPTION_FAILED");
             status := Some 500;
             retryable := Some false |}))
  = true.
Proof.
  exact (proj1 (proj2 (route_failures_as_seen_by_the_page
                         (js "V1") (js "sk-test")
                         (js "No audio stream found")
                         {| pend_videoId := js "V1";
                            pend_language := js "zh";
                            pend_request := 0 |}
                         (Examples.browser 1000 ∅) Examples.page_ready
                         eq_refl eq_refl))).
Defined.

End RouteExtras.

(* ===================================================================== *)
(** * Properties of the highlight store's keys *)
(* ===================================================================== *)

Section StorageExtras.
Import Storage.

Lemma fold_removeItem keys : forall ls k,
  items (fold_left (fun acc key => removeItem key acc) keys ls) !! k
  = if bool_decide (k ∈ keys) then None else items ls !! k.
Proof.
  induction keys as [|key keys IH]; intros ls k.
  - rewrite bool_decide_eq_false_2 by apply not_elem_of_nil. reflexivity.
  - cbn [fold_left]. rewrite IH. cbn [removeItem items].
    destruct (decide (k = key)) as [->|Hne].
    + rewrite (bool_decide_eq_true_2 (key ∈ key :: keys))
        by apply list_elem_of_here.
      destruct (bool_decide (key ∈ keys)); [reflexivity|].
      apply lookup_delete_eq.
    + rewrite lookup_delete_ne by congruence.
      destruct (decide (k ∈ keys)) as [Hin|Hnin].
      * rewrite !bool_decide_eq_true_2; auto. now apply list_elem_of_further.
      * rewrite !bool_decide_eq_false_2; auto.
        intros Hin. apply elem_of_cons in Hin. destruct Hin; auto.
Qed.

Lemma fold_removeItem_oracle keys : forall ls,
  setItem_fault (fold_left (fun acc key => removeItem key acc) keys ls)
  = setItem_fault ls.
Proof.
  induction keys as [|key keys IH]; intros ls; [reflexivity|].
  cbn [fold_left]. rewrite IH. reflexivity.
Qed.

(** X22.  With a writable [localStorage], [clearAll] removes every item
    whose key starts with ["highlights:"] and keeps every other item as
    it is, except the item ["__storage_test__"], which the availability
    test deletes; when the test write throws, [clearAll] changes
    nothing. *)
Theorem clearAll_removes_only_highlight_keys ls :
  (writable ls ->
   forall k,
     items (clearAll ls) !! k
     = if startsWith KEY_PREFIX k || bool_decide (k = test_key)
       then None
       else items ls !! k)
  /\ (setItem_fault ls (setItem_calls ls) = true ->
      items (clearAll ls) = items ls).
Proof.
  split.
  - intros Hw k. unfold clearAll, getAllHighlightKeys, isAvailable.
    rewrite Hw. cbn [negb removeItem setItem_fault setItem_calls items].
    rewrite Hw. cbn [negb removeItem setItem_fault setItem_calls items].
    rewrite fold_removeItem. cbn [removeItem items].
    rewrite !delete_insert_eq, delete_delete_eq.
    unfold keys_of. cbn [items].
    destruct (decide (k = test_key)) as [->|Hne].
    + rewrite orb_true_r. rewrite lookup_delete_eq.
      destruct (bool_decide _); reflexivity.
    + rewrite (bool_decide_eq_false_2 (k = test_key)) by exact Hne.
      rewrite orb_false_r. rewrite lookup_delete_ne by congruence.
      destruct (startsWith KEY_PREFIX k) eqn:Hp.
      * destruct (items ls !! k) as [v|] eqn:Hk.
        -- rewrite bool_decide_eq_true_2; [reflexivity|].
           apply list_elem_of_In, filter_In. split.
           ++ apply list_elem_of_In, list_elem_of_fmap. exists (k, v).
              split; [reflexivity|]. apply elem_of_map_to_list.
              cbn [removeItem items].
              rewrite lookup_delete_ne, lookup_insert_ne, lookup_delete_ne
                by congruence.
              exact Hk.
           ++ destruct k; [discriminate Hp | exact Hp].
        -- destruct (bool_decide _); reflexivity.
      * rewrite bool_decide_eq_false_2; [reflexivity|].
        intros Hin. apply list_elem_of_In, filter_In in Hin.
        destruct Hin as [_ Hin]. destruct k; congruence.
  - intros Hf. unfold clearAll, isAvailable. rewrite Hf. reflexivity.
Qed.

Lemma clearAll_removes_only_highlight_keys_witness :
  items (clearAll Examples2.store_two) !! getKey (js "V1") = None
  /\ items (clearAll Examples2.store_two) !! js "theme" = Some (js "dark")
  /\ items (clearAll Examples2.store_refusing)
     = items Examples2.store_refusing.
Proof.
  destruct (clearAll_removes_only_highlight_keys Examples2.store_two)
    as [Hok _].
  destruct (clearAll_removes_only_highlight_keys Examples2.store_refusing)
    as [_ Hfail].
  split; [|split].
  - rewrite Hok by (intros i; reflexivity). reflexivity.
  - rewrite Hok by (intros i; reflexivity). vm_compute. reflexivity.
  - apply Hfail. reflexivity.
Defined.

Lemma getKey_inj vid vid' : getKey vid = getKey vid' -> vid = vid'.
Proof. unfold getKey. apply app_inv_head. Qed.

Lemma getKey_not_test_key vid : getKey vid <> test_key.
Proof. unfold getKey, KEY_PREFIX, test_key. cbn. discriminate. Qed.

(** X23.  With a writable [localStorage], [clearHighlights] of one video
    removes that video's item and, of all other items, only
    ["__storage_test__"]; in particular the highlights of every other
    video stay as they were.  When the test write throws, nothing is
    removed. *)
Theorem clearHighlights_removes_one_video vid ls :
  (writable ls ->
   (forall k,
      items (clearHighlights vid ls) !! k
      = if bool_decide (k = getKey vid) || bool_decide (k = test_key)
        then None
        else items ls !! k)
   /\ (forall vid', vid' <> vid ->
         items (clearHighlights vid ls) !! getKey vid'
         = items ls !! getKey vid'))
  /\ (setItem_fault ls (setItem_calls ls) = true ->
      items (clearHighlights vid ls) = items ls).
Proof.
  assert (Hall : writable ls -> forall k,
    items (clearHighlights vid ls) !! k
    = if bool_decide (k = getKey vid) || bool_decide (k = test_key)
      then None
      else items ls !! k).
  { intros Hw k. unfold clearHighlights, isAvailable. rewrite Hw.
    cbn [negb removeItem setItem_fault setItem_calls items].
    rewrite delete_insert_eq.
    destruct (decide (k = getKey vid)) as [->|Hk].
    - rewrite bool_decide_eq_true_2 by reflexivity.
      apply lookup_delete_eq.
    - rewrite (bool_decide_eq_false_2 (k = getKey vid)) by exact Hk.
      rewrite lookup_delete_ne by congruence. cbn [orb].
      destruct (decide (k = test_key)) as [->|Ht].
      + rewrite bool_decide_eq_true_2 by reflexivity.
        apply lookup_delete_eq.
      + rewrite bool_decide_eq_false_2 by exact Ht.
        apply lookup_delete_ne. congruence. }
  split; [intros Hw; split|].
  - apply Hall, Hw.
  - intros vid' Hne. rewrite Hall by exact Hw.
    rewrite !bool_decide_eq_false_2; [reflexivity| |].
    + apply getKey_not_test_key.
    + intros Heq. apply Hne. now apply getKey_inj.
  - intros Hf. unfold clearHighlights, isAvailable. rewrite Hf. reflexivity.
Qed.

Lemma clearHighlights_removes_one_video_witness :
  items (clearHighlights (js "V1") Examples2.store_two) !! getKey (js "V1")
  = None
  /\ items (clearHighlights (js "V1") Examples2.store_two)
       !! getKey (js "V2")
     = Some (js "[]")
  /\ items (clearHighlights (js "V1") Examples2.store_refusing)
     = items Examples2.store_refusing.
Proof.
  destruct (clearHighlights_removes_one_video (js "V1") Examples2.store_two)
    as [Hok _].
  destruct (Hok (fun i => eq_refl)) as [Hall Hother].
  destruct
    (clearHighlights_removes_one_video (js "V1") Examples2.store_refusing)
    as [_ Hfail].
  split; [|split].
  - rewrite Hall. rewrite bool_decide_eq_true_2 by reflexivity. reflexivity.
  - rewrite Hother by discriminate. vm_compute. reflexivity.
  - apply Hfail. reflexivity.
Defined.

End StorageExtras.
